(** * Locating a person on a lattice over Berlin: [location.py] and [mapper.py]

    A shallow embedding of the clue models ([Location], [Satellite], [River],
    [BGate]) and of the grid engine ([Mapper]).  The Python code computes on
    binary64 numbers; the definitions below are written once, over an
    interface [Arith] of the arithmetic the code uses, and are then read at
    two instances: IEEE binary64 (the numbers the interpreter computes with,
    with NaN and signed zeros) and the real numbers (the exact arithmetic
    the formulas are meant in). *)

From Stdlib Require Import Bool String ZArith Lia List.
From Stdlib Require Import Reals Lra.
From Stdlib Require Import Floats.
Import ListNotations.

Set Implicit Arguments.

(** ** Python exceptions *)

Inductive exn : Type :=
| ValueError   (* unpacking, [min] of an empty sequence, shapes that do not broadcast *)
| IndexError   (* [coords[0]] of an empty list *)
| TypeError    (* a call that lacks a required argument *)
| UnboundLocalError.  (* a local variable read before it is assigned *)

Inductive result (A : Type) : Type :=
| Ok (a : A)
| Raise (e : exn).

Arguments Ok {A} a.
Arguments Raise {A} e.

Definition rbind {A B : Type} (r : result A) (k : A -> result B) : result B :=
  match r with
  | Ok a => k a
  | Raise e => Raise e
  end.

Declare Scope py_scope.
Delimit Scope py_scope with py.
Notation "x <- c ;; k" := (rbind c (fun x => k))
  (at level 61, c at next level, right associativity) : py_scope.

(** What is left of a result once the kind of exception is forgotten. *)
Definition value {A : Type} (r : result A) : option A :=
  match r with
  | Ok a => Some a
  | Raise _ => None
  end.

(** A list comprehension whose body may raise: left to right, the first
    exception wins. *)
Fixpoint mapM {A B : Type} (f : A -> result B) (l : list A) : result (list B) :=
  match l with
  | [] => Ok []
  | a :: l' =>
      match f a with
      | Raise e => Raise e
      | Ok b =>
          match mapM f l' with
          | Raise e => Raise e
          | Ok bs => Ok (b :: bs)
          end
      end
  end.

(** ** The arithmetic of the code *)

Class Arith (num : Type) : Type := {
  nofZ : Z -> num;             (* an integer constant, or [float(i)] *)
  nadd : num -> num -> num;
  nsub : num -> num -> num;
  nmul : num -> num -> num;
  ndiv : num -> num -> num;    (* numpy's true division: no exception *)
  nsqrt : num -> num;          (* [np.sqrt] *)
  nltb : num -> num -> bool;   (* [<] *)
  nleb : num -> num -> bool;   (* [<=] *)
  nisnan : num -> bool
}.

Declare Scope num_scope.
Delimit Scope num_scope with num.
Notation "x + y" := (nadd x y) : num_scope.
Notation "x - y" := (nsub x y) : num_scope.
Notation "x * y" := (nmul x y) : num_scope.
Notation "x / y" := (ndiv x y) : num_scope.
Notation "x <? y" := (nltb x y) : num_scope.
Notation "x <=? y" := (nleb x y) : num_scope.

(** The external numeric routines the code calls: numpy's elementary
    functions and the densities of scipy's frozen distributions.  They are
    not part of the repository; the code is read over any implementation of
    them. *)

Inductive Dist (num : Type) : Type :=
| scs_norm (loc scale : num)      (* [scs.norm(loc, scale)] *)
| scs_lognorm (s scale : num).    (* [scs.lognorm(s=s, scale=scale)] *)

Class Lib (num : Type) : Type := {
  np_pi : num;
  np_sin : num -> num;
  np_cos : num -> num;
  np_arcsin : num -> num;
  np_arctan2 : num -> num -> num;
  np_exp : num -> num;
  np_log : num -> num;
  np_mod : num -> num -> num;           (* [%] on floats, sign of the divisor *)
  scs_pdf : Dist num -> num -> num      (* [distribution.pdf(x)] *)
}.

Section Code.

Context {num : Type} {A : Arith num} {L : Lib num}.

Local Open Scope num_scope.

(** A decimal literal [m * 10^-k] of the source. *)
Definition dec (m : Z) (k : nat) : num := nofZ m / nofZ (10 ^ Z.of_nat k).

(** [x**2], one multiplication. *)
Definition sq (x : num) : num := x * x.

Definition np_radians (x : num) : num := x * (np_pi / nofZ 180).
Definition np_degrees (x : num) : num := x * (nofZ 180 / np_pi).

(** [np.clip(u, lo, hi)] on a scalar; a NaN passes through. *)
Definition np_clip (u lo hi : num) : num :=
  if u <? lo then lo else if hi <? u then hi else u.

(** [np.sum]: the entries added up from zero, left to right.  numpy adds
    long arrays pairwise, which changes the rounding of a binary64 sum and
    nothing else; up to seven entries, and in exact arithmetic, this is
    the sum numpy returns. *)
Definition np_sum (l : list num) : num := fold_left nadd l (nofZ 0).

(** [np.ones(shape)] for a one-dimensional shape. *)
Definition np_ones (n : nat) : list num := repeat (nofZ 1) n.

(** Python's [min] over a sequence: the first item is kept until a later
    one compares [<] to it; an empty sequence raises. *)
Fixpoint min_from (m : num) (l : list num) : num :=
  match l with
  | [] => m
  | x :: l' => min_from (if x <? m then x else m) l'
  end.

Definition py_min (l : list num) : result num :=
  match l with
  | [] => Raise ValueError
  | x :: l' => Ok (min_from x l')
  end.

(** *** Module constants of [location.py] and [mapper.py] *)

Definition SW_LAT : num := dec 52464011 6.
Definition SW_LON : num := dec 13274099 6.
Definition NE_LAT : num := dec 52586925 6.
Definition NE_LON : num := dec 13521837 6.

Definition point : Type := (num * num)%type.
Definition segment : Type := (point * point)%type.

(** *** [River]: the planar geometry *)

(** [River.convert_xy(lon, lat)]. *)
Definition convert_xy (lon lat : num) : point :=
  let x := (lon - SW_LON) * np_cos (SW_LAT * np_pi / nofZ 180) * dec 111323 3 in
  let y := (lat - SW_LAT) * dec 111323 3 in
  (x, y).

(** [River.line_distance(point, line)]. *)
Definition line_distance (p : point) (line : segment) : num :=
  let '(start, end_) := line in
  let line_x := fst end_ - fst start in
  let line_y := snd end_ - snd start in
  let line_length := nsqrt (sq line_x + sq line_y) in
  let u := ((fst p - fst start) * line_x + (snd p - snd start) * line_y)
           / sq line_length in
  let u := np_clip u (nofZ 0) (nofZ 1) in
  let x := fst start + u * line_x in
  let y := snd start + u * line_y in
  let dx := x - fst p in
  let dy := y - snd p in
  nsqrt (dx * dx + dy * dy).

(** *** Clue models *)

(** What a subclass adds to the attributes of [Location]. *)
Inductive attrs : Type :=
| SatelliteAttrs (R : num)              (* [self.R] *)
| RiverAttrs (lines : list segment)     (* [self.lines] *)
| BGateAttrs.

(** An instance of one of the three subclasses of [Location].  [pdf] is
    the attribute that [get_pdf] creates: [None] while the instance has no
    such attribute. *)
Record Location : Type := mkLocation {
  coords : list point;
  name : string;
  distribution : Dist num;
  pdf : option (list num);
  own : attrs
}.

Definition set_pdf (self : Location) (p : list num) : Location :=
  mkLocation (coords self) (name self) (distribution self) (Some p) (own self).

(** Modelled from the spec: [vincenty(a, b).km] of geopy, which is not part
    of the repository.  Spec 4.1 gives the distance between two coordinates
    as the spherical (haversine) great-circle distance with Earth radius
    6371 km.  The routine as the library computes it, on an ellipsoid, is
    [geopy_vincenty_km] below. *)
Definition vincenty_km (a b : point) : num :=
  let lat1 := np_radians (fst a) in
  let lat2 := np_radians (fst b) in
  let dlat := np_radians (fst b - fst a) in
  let dlon := np_radians (snd b - snd a) in
  let hav := sq (np_sin (dlat / nofZ 2))
             + np_cos lat1 * np_cos lat2 * sq (np_sin (dlon / nofZ 2)) in
  nofZ 2 * nofZ 6371 * np_arcsin (nsqrt hav).

(** [Satellite.bearing(start, end)]. *)
Definition bearing (start end_ : point) : num :=
  let start_lat := np_radians (fst start) in
  let end_lat := np_radians (fst end_) in
  let delta_lon := np_radians (snd end_ - snd start) in
  let br := np_arctan2 (np_sin delta_lon * np_cos end_lat)
              (np_cos start_lat * np_sin end_lat
               - np_sin start_lat * np_cos end_lat * np_cos delta_lon) in
  np_mod (np_degrees br) (nofZ 360).

(** [Satellite.distance(point)]; unpacking [self.coords] raises unless it
    holds exactly two coordinates. *)
Definition Satellite_distance (self_coords : list point) (R : num) (p : point)
  : result num :=
  match self_coords with
  | [sat_start; sat_end] =>
      let delta_13 := vincenty_km sat_start p / R in
      let theta_13 := bearing sat_start p in
      let theta_12 := bearing sat_start sat_end in
      Ok (np_arcsin (np_sin delta_13 * np_sin (np_radians (theta_13 - theta_12))) * R)
  | _ => Raise ValueError
  end.

(** [River.make_linear(coords)]: [zip(xy_coords[:-1], xy_coords[1:])]. *)
Definition make_linear (self_coords : list point) : list segment :=
  let xy_coords := map (fun lon_lat => convert_xy (fst lon_lat) (snd lon_lat)) self_coords in
  combine (removelast xy_coords) (tl xy_coords).

(** [River.distance(point)]. *)
Definition River_distance (lines : list segment) (p : point) : result num :=
  let xy_point := convert_xy (fst p) (snd p) in
  py_min (map (fun line => line_distance xy_point line) lines).

(** [BGate.distance(point)], over a routine for [vincenty(a, b).km]. *)
Definition BGate_distance_with (vincenty : point -> point -> result num)
  (self_coords : list point) (p : point) : result num :=
  match self_coords with
  | c0 :: _ => vincenty p c0
  | [] => Raise IndexError
  end.

(** [BGate.distance(point)], with the great-circle distance of the spec
    for that routine. *)
Definition BGate_distance (self_coords : list point) (p : point) : result num :=
  BGate_distance_with (fun a b => Ok (vincenty_km a b)) self_coords p.

(** [self.distance(point)], dispatched on the class of the instance. *)
Definition distance (self : Location) (p : point) : result num :=
  match own self with
  | SatelliteAttrs R => Satellite_distance (coords self) R p
  | RiverAttrs lines => River_distance lines p
  | BGateAttrs => BGate_distance (coords self) p
  end.

(** [Location.prob(point)]. *)
Definition prob (self : Location) (p : point) : result num :=
  (path_dist <- distance self p ;;
   Ok (scs_pdf (distribution self) path_dist))%py.

(** [Location.get_pdf(lats, lons)], the instance passed in and out. *)
Definition Location_get_pdf (self : Location) (lats lons : list num)
  : result (Location * list num) :=
  match pdf self with
  | Some p => Ok (self, p)
  | None =>
      (p <- mapM (prob self) (combine lats lons) ;;
       Ok (set_pdf self p, p))%py
  end.

(** The constructors.  None of them has a [raise] or a check of its
    arguments. *)

Definition Satellite_init (coords : list point) (ci_range : num) : Location :=
  mkLocation coords "satellite" (scs_norm (nofZ 0) (ci_range / dec 196 2)) None
    (SatelliteAttrs (nofZ 6371)).

Definition River_init (coords : list point) (ci_range : num) : Location :=
  mkLocation coords "river" (scs_norm (nofZ 0) (ci_range / dec 196 2)) None
    (RiverAttrs (make_linear coords)).

(** [BGate.set_distribution(mean, mode)]. *)
Definition set_distribution (mean mode : num) : Dist num :=
  let scale := np_exp mean in
  let s := nsqrt (np_log (scale / mode)) in
  scs_lognorm s scale.

Definition BGate_init (coords : list point) (mean mode : num) : Location :=
  mkLocation coords "brandenburger_gate" (set_distribution mean mode) None BGateAttrs.

(** *** The store of instances

    Clue models are mutable and shared: the list handed to the mapper holds
    references, and [get_pdf] writes the attribute [pdf] of the instance a
    reference points to. *)

Definition ref : Type := nat.
Definition heap : Type := ref -> Location.

Definition upd (h : heap) (r : ref) (o : Location) : heap :=
  fun r' => if Nat.eqb r' r then o else h r'.

(** A computation that may write the store and may raise. *)
Definition py (X : Type) : Type := heap -> heap * result X.

Definition ret {X : Type} (x : X) : py X := fun h => (h, Ok x).

Definition bind {X Y : Type} (c : py X) (k : X -> py Y) : py Y :=
  fun h =>
    match c h with
    | (h', Ok x) => k x h'
    | (h', Raise e) => (h', Raise e)
    end.

Definition lift {X : Type} (r : result X) : py X := fun h => (h, r).

(** [obj.get_pdf(lats, lons)] on a reference. *)
Definition get_pdf (obj : ref) (lats lons : list num) : py (list num) :=
  fun h =>
    match Location_get_pdf (h obj) lats lons with
    | Ok (self', p) => (upd h obj self', Ok p)
    | Raise e => (h, Raise e)
    end.

(** *** [Mapper] *)

(** [np.linspace(start, stop, n)]: [n] evenly spaced samples, the last one
    set to [stop]. *)
Definition np_linspace (start stop : num) (n : nat) : list num :=
  match n with
  | 0 => []
  | 1 => [start]
  | S (S m) =>
      let step := (stop - start) / nofZ (Z.of_nat (S m)) in
      map (fun i => nofZ (Z.of_nat i) * step + start) (seq 0 (S m)) ++ [stop]
  end.

Record Mapper : Type := mkMapper {
  objects : list ref;
  latitudes : list num;
  longitudes : list num
}.

(** [Mapper.generate_mesh_grid(n)]: [np.meshgrid(x, y)] flattened row by
    row, so the latitudes run fastest. *)
Definition generate_mesh_grid (n : nat) : list num * list num :=
  let x := np_linspace SW_LAT NE_LAT n in
  let y := np_linspace SW_LON NE_LON n in
  (flat_map (fun _ => x) y, flat_map (fun yi => map (fun _ => yi) x) y).

Definition Mapper_init (objs : list ref) (n : nat) : Mapper :=
  let '(lats, lons) := generate_mesh_grid n in
  mkMapper objs lats lons.

(** [distribution /= s]. *)
Definition idiv (distribution : list num) (s : num) : list num :=
  map (fun x => x / s) distribution.

(** [distribution *= probs], [probs] a list: equal lengths multiply cell
    by cell, a list of length one is broadcast, anything else raises. *)
Definition imul (distribution probs : list num) : result (list num) :=
  if Nat.eqb (length probs) (length distribution)
  then Ok (map (fun dp => fst dp * snd dp) (combine distribution probs))
  else match probs with
       | [p] => Ok (map (fun d => d * p) distribution)
       | _ => Raise ValueError
       end.

(** The [for obj in objs] loop of [get_distribution]. *)
Fixpoint for_objs (self : Mapper) (objs : list ref) (distribution : list num)
  : py (list num) :=
  match objs with
  | [] => ret distribution
  | obj :: objs' =>
      bind (get_pdf obj (latitudes self) (longitudes self)) (fun probs =>
      bind (lift (imul distribution probs)) (fun distribution =>
      for_objs self objs' distribution))
  end.

(** The uniform prior of [get_distribution]. *)
Definition prior (self : Mapper) : list num :=
  let distribution := np_ones (length (latitudes self)) in
  idiv distribution (np_sum distribution).

(** [Mapper.get_distribution(objs)]. *)
Definition get_distribution (self : Mapper) (objs : list ref) : py (list num) :=
  bind (for_objs self objs (prior self)) (fun distribution =>
  ret (idiv distribution (np_sum distribution))).

(** [np.argmax]: the first index of a maximal entry; a NaN is maximal. *)
Fixpoint argmax_from (mp : num) (max_ind i : nat) (l : list num) : nat :=
  match l with
  | [] => max_ind
  | x :: l' =>
      if nisnan mp then max_ind
      else if x <=? mp then argmax_from mp max_ind (S i) l'
           else argmax_from x i (S i) l'
  end.

Definition np_argmax (l : list num) : result nat :=
  match l with
  | [] => Raise ValueError
  | x :: l' => Ok (argmax_from x 0 1 l')
  end.

(** [a[i]] on an array. *)
Definition index (a : list num) (i : nat) : result num :=
  match nth_error a i with
  | Some x => Ok x
  | None => Raise IndexError
  end.

(** [Mapper.find_maximum(distribution)]. *)
Definition find_maximum (self : Mapper) (distribution : list num) : result point :=
  (max_idx <- np_argmax distribution ;;
   lat <- index (latitudes self) max_idx ;;
   lon <- index (longitudes self) max_idx ;;
   Ok (lat, lon))%py.

(** *** The clues of [main.py] *)

Definition bg_coords : list point := [(dec 52516288 6, dec 13377689 6)].
Definition sat_coords : list point :=
  [(dec 52590117 6, dec 1339915 5); (dec 52437385 6, dec 13553989 6)].

End Code.

Arguments Location num : clear implicits.
Arguments attrs num : clear implicits.
Arguments Mapper num : clear implicits.
Arguments heap num : clear implicits.
Arguments point num : clear implicits.
Arguments segment num : clear implicits.

(** ** The two readings of the arithmetic *)

(** *** IEEE binary64, as the interpreter computes *)

Definition float_of_Z (z : Z) : float :=
  match z with
  | Z0 => 0%float
  | Zpos _ => PrimFloat.of_uint63 (Uint63.of_Z z)
  | Zneg p => (- PrimFloat.of_uint63 (Uint63.of_Z (Zpos p)))%float
  end.

#[global] Instance binary64 : Arith float := {|
  nofZ := float_of_Z;
  nadd := PrimFloat.add;
  nsub := PrimFloat.sub;
  nmul := PrimFloat.mul;
  ndiv := PrimFloat.div;
  nsqrt := PrimFloat.sqrt;
  nltb := PrimFloat.ltb;
  nleb := PrimFloat.leb;
  nisnan := fun x => negb (PrimFloat.eqb x x)
|}.

(** [x] is a zero of either sign, or a NaN. *)
Definition zero_or_nan (x : float) : Prop :=
  match Prim2SF x with
  | S754_zero _ | S754_nan => True
  | _ => False
  end.

(** The test [abs(s - 1) <= 1e-9] of a sum against one. *)
Definition sums_to_one (l : list float) : bool :=
  PrimFloat.leb (PrimFloat.abs (np_sum l - 1)%float) (dec 1 9).

(** *** Real numbers, the exact arithmetic *)

Definition Rltb (x y : R) : bool := if Rlt_dec x y then true else false.
Definition Rleb (x y : R) : bool := if Rle_dec x y then true else false.

#[global] Instance exact : Arith R := {|
  nofZ := IZR;
  nadd := Rplus;
  nsub := Rminus;
  nmul := Rmult;
  ndiv := Rdiv;
  nsqrt := R_sqrt.sqrt;
  nltb := Rltb;
  nleb := Rleb;
  nisnan := fun _ => false
|}.

(** The angle of the point [(x, y)], in [(-PI, PI]]. *)
Definition Ratan2 (y x : R) : R :=
  if Rlt_dec 0 x then atan (y / x)
  else if Rlt_dec x 0 then
         if Rle_dec 0 y then atan (y / x) + PI else atan (y / x) - PI
  else if Rlt_dec 0 y then PI / 2
  else if Rlt_dec y 0 then - (PI / 2)
  else 0%R.

(** [a % b] with the sign of the divisor. *)
Definition Rmod (a b : R) : R := (a - b * IZR (Int_part (a / b)))%R.

(** The densities of the normal and of the log-normal distribution. *)
Definition Rpdf (d : Dist R) (x : R) : R :=
  match d with
  | scs_norm loc scale =>
      (exp (- (Rsqr ((x - loc) / scale) / 2)) / (R_sqrt.sqrt (2 * PI) * scale))%R
  | scs_lognorm s scale =>
      if Rle_dec x 0 then 0%R
      else (exp (- (Rsqr (ln (x / scale)) / (2 * Rsqr s)))
            / (s * (x / scale) * R_sqrt.sqrt (2 * PI)) / scale)%R
  end.

#[global] Instance exact_lib : Lib R := {|
  np_pi := PI;
  np_sin := sin;
  np_cos := cos;
  np_arcsin := asin;
  np_arctan2 := Ratan2;
  np_exp := exp;
  np_log := ln;
  np_mod := Rmod;
  scs_pdf := Rpdf
|}.

(** ** The rest of [mapper.py] and the loader of [main.py] *)

Section Rendering.

Context {num : Type} {A : Arith num} {L : Lib num}.

Local Open Scope num_scope.

(** [k] rows of [width] entries each, cut from a flat array. *)
Fixpoint rows (k width : nat) (a : list num) : list (list num) :=
  match k with
  | 0 => []
  | S k' => firstn width a :: rows k' width (skipn width a)
  end.

(** [a.reshape((256, 256))]: raises unless [a] has 256 * 256 entries. *)
Definition reshape_256 (a : list num) : result (list (list num)) :=
  if Nat.eqb (length a) (256 * 256) then Ok (rows 256 256 a)
  else Raise ValueError.

(** What [generate_map] asks of matplotlib and gmplot, which are not part
    of the repository: the calls it makes, with the data it passes. *)
Inductive gmap_call : Type :=
| plotter (center_lat center_lon : num)
    (* [gmplot.GoogleMapPlotter(center_lat, center_lon, 11)] *)
| scatter (lats lons : list num)
    (* [gmap.scatter(lats, lons, c='r', marker=True)] *)
| contour_lines (X Y probs : list (list num))
    (* [plt.contour(X, Y, probs, 5, colors='black', linewidth=.1)] *)
| plot (lats lons : list num) (color : string)
    (* [gmap.plot(lats, lons, color=color, edge_width=3)] *)
| heatmap (lats lons : list num) (threshold : nat)
    (* [gmap.heatmap(lats, lons, radius=5, opacity=.4, threshold=threshold)] *)
| polygon (lats lons : list num)
    (* [gmap.polygon(lats, lons, face_alpha=0.01)] *)
| draw (fn : string).
    (* [gmap.draw(fn)] *)

(** [a[idx]] for a list of indices. *)
Definition take (a : list num) (idx : list nat) : result (list num) :=
  mapM (index a) idx.

(** The name of the file [generate_map] draws to. *)
Definition file_name (h : heap num) (objs : list ref) : string :=
  ("../maps/" ++ match objs with
                 | [obj] => name (h obj)
                 | _ => "final_map"
                 end ++ ".html")%string.

(** What the code uses of matplotlib and of Python's string formatting in
    the branch for contour lines.  They are not part of the repository;
    the code is read over any implementation of them.  A contour set is
    given by what the code reads of it: [C.levels], and for each entry of
    [C.collections] its paths, a path being the sequence of its
    vertices. *)
Record Pyplot : Type := mkPyplot {
  plt_contour : list (list num) -> list (list num) -> list (list num)
                -> result (list num * list (list (list (point num))));
    (* [plt.contour(X, Y, probs, 5, colors='black', linewidth=.1)] *)
  sm_to_rgba : list num -> list (num * num * num * num);
    (* [ScalarMappable(cmap='RdYlGn_r').to_rgba(a)]: a row of red, green,
       blue and alpha for each entry of [a] *)
  format_rgb : num -> num -> num -> result string
    (* ['#%02x%02x%02x' % (r, g, b)] *)
}.

(** [np.maximum] on two scalars, and [np.max] on an array: a NaN wins, and
    an empty array raises. *)
Definition np_maximum (a b : num) : num :=
  if nisnan a then a else if b <=? a then a else b.

Definition np_max (l : list num) : result num :=
  match l with
  | [] => Raise ValueError
  | x :: l' => Ok (fold_left np_maximum l' x)
  end.

(** [Mapper.get_color_map(levels)]. *)
Definition get_color_map (plt : Pyplot) (levels : list num)
  : result (list string) :=
  (m <- np_max levels ;;
   let normed_levels := idiv levels m in
   let colors := map (fun rgba => let '(r, g, b, _) := rgba in
                                  (nofZ 255 * r, nofZ 255 * g, nofZ 255 * b))
                   (sm_to_rgba plt normed_levels) in
   mapM (fun rgb => let '(r, g, b) := rgb in format_rgb plt r g b) colors)%py.

(** [gmap.plot] on the vertices of a path, unzipped into its latitudes
    and its longitudes, with [color=color_map[i]] and [edge_width=3]:
    [color_map[i]] raises when there is no colour [i], and the call lacks
    its two positional arguments when the path has no vertex. *)
Definition plot_path (color_map : list string) (i : nat)
  (path : list (point num)) : result gmap_call :=
  match nth_error color_map i with
  | None => Raise IndexError
  | Some color =>
      match path with
      | [] => Raise TypeError
      | _ => Ok (plot (map fst path) (map snd path) color)
      end
  end.

(** The two nested [for] loops over [enumerate(C.collections)] and the
    paths of each level. *)
Definition plot_paths (color_map : list string)
  (collections : list (list (list (point num)))) : result (list gmap_call) :=
  (calls <- mapM (fun il => mapM (plot_path color_map (fst il)) (snd il))
              (combine (seq 0 (length collections)) collections) ;;
   Ok (concat calls))%py.

(** The overlay of [generate_map]: contour lines, a heatmap, or none.
    [choice] stands for [np.random.choice(np.arange(size), size=..., p=...)],
    the draw of [pull_heatmap_idx]. *)
Definition overlay (choice : list num -> nat -> result (list nat))
  (plt : Pyplot)
  (self : Mapper num) (distribution : list num) (plot_type : string)
  (heatmap_size threshold : nat) : result (list gmap_call) :=
  if String.eqb plot_type "lines" then
    (X <- reshape_256 (latitudes self) ;;
     Y <- reshape_256 (longitudes self) ;;
     probs <- reshape_256 distribution ;;
     C <- plt_contour plt X Y probs ;;
     color_map <- get_color_map plt (fst C) ;;
     plots <- plot_paths color_map (snd C) ;;
     Ok (contour_lines X Y probs :: plots))%py
  else if String.eqb plot_type "heatmap" then
    (heatmap_idx <- choice distribution heatmap_size ;;
     lats <- take (latitudes self) heatmap_idx ;;
     lons <- take (longitudes self) heatmap_idx ;;
     Ok [heatmap lats lons threshold])%py
  else Ok [].

(** [Mapper.generate_map(objs, plot_type, max_marker, heatmap_size,
    threshold)]: the calls made on the map, in order, when it returns. *)
Definition generate_map (choice : list num -> nat -> result (list nat))
  (plt : Pyplot)
  (self : Mapper num) (objs : option (list ref)) (plot_type : string)
  (max_marker : bool) (heatmap_size threshold : nat) : py (list gmap_call) :=
  let objs := match objs with
              | None | Some [] => objects self
              | Some objs => objs
              end in
  bind (get_distribution self objs) (fun distribution =>
  bind (lift (if max_marker
              then (xy <- find_maximum self distribution ;;
                    Ok [scatter [fst xy] [snd xy]])%py
              else Ok [])) (fun marker =>
  bind (lift (overlay choice plt self distribution plot_type heatmap_size threshold))
    (fun over h =>
       (h, Ok (plotter ((SW_LAT + NE_LAT) / nofZ 2) ((SW_LON + NE_LON) / nofZ 2)
               :: marker ++ over
               ++ [polygon [SW_LAT; SW_LAT; NE_LAT; NE_LAT]
                     [SW_LON; NE_LON; NE_LON; SW_LON];
                   draw (file_name h objs)]))))).

(** *** Reading the river file in [main.py] *)

Definition newline : Ascii.ascii := Ascii.ascii_of_nat 10.
Definition comma : Ascii.ascii := Ascii.ascii_of_nat 44.

(** The lines that successive calls of [f.readline()] return before the
    empty string of the end of file, each with its newline when it has
    one. *)
Fixpoint readlines (content : string) : list string :=
  match content with
  | EmptyString => []
  | String c rest =>
      if Ascii.eqb c newline then String c EmptyString :: readlines rest
      else match readlines rest with
           | [] => [String c EmptyString]
           | line :: lines => String c line :: lines
           end
  end.

(** [line.strip('\n')]: newlines taken off both ends. *)
Fixpoint lstrip (s : string) : string :=
  match s with
  | String c rest => if Ascii.eqb c newline then lstrip rest else s
  | EmptyString => EmptyString
  end.

Fixpoint rstrip (s : string) : string :=
  match s with
  | EmptyString => EmptyString
  | String c rest =>
      match rstrip rest with
      | EmptyString => if Ascii.eqb c newline then EmptyString
                       else String c EmptyString
      | t => String c t
      end
  end.

Definition strip (s : string) : string := rstrip (lstrip s).

(** [s.split(',')]: the fields between the commas, at least one. *)
Fixpoint split (s : string) : list string :=
  match s with
  | EmptyString => [EmptyString]
  | String c rest =>
      if Ascii.eqb c comma then EmptyString :: split rest
      else match split rest with
           | [] => [String c EmptyString]
           | field :: fields => String c field :: fields
           end
  end.

(** The body of the loop: [lat, lon = [float(el) for el in
    line.strip('\n').split(',')]].  [py_float] is Python's [float] on a
    string, which may raise. *)
Definition parse_line (py_float : string -> result num) (line : string)
  : result (point num) :=
  (els <- mapM py_float (split (strip line)) ;;
   match els with
   | [lat; lon] => Ok (lat, lon)
   | _ => Raise ValueError
   end)%py.

(** The [while line:] loop over the open file: the coordinates of the
    river, one for each line, in the order of the file. *)
Definition read_river (py_float : string -> result num) (content : string)
  : result (list (point num)) :=
  mapM (parse_line py_float) (readlines content).

End Rendering.

Arguments Pyplot num : clear implicits.

(** ** [geopy.distance.vincenty], as the library computes it

    The code above reads [vincenty(a, b).km] through [vincenty_km], the
    great-circle distance the spec gives.  The library routine itself
    (geopy 1.11, [vincenty.measure]) solves the inverse geodesic problem on
    the WGS-84 ellipsoid by Vincenty's iteration.  This is that routine over
    the reals, with Python's [math] functions read as the real functions. *)

Section Geopy.

Local Open Scope R_scope.









End Geopy.

(** ** Notions the statements are written with *)

Section Statements.

Context {num : Type} {A : Arith num} {L : Lib num}.

Local Open Scope num_scope.

(** The density sequence of a clue model over the lattice of a mapper,
    computed afresh: [prob] at every lattice coordinate, in lattice order. *)
Definition lattice_density (self : Mapper num) (o : Location num) : result (list num) :=
  mapM (prob o) (combine (latitudes self) (longitudes self)).

(** What [get_pdf] hands to the mapper for a clue model in a given state:
    the cached sequence when there is one. *)
Definition density_of (self : Mapper num) (o : Location num) : result (list num) :=
  match pdf o with
  | Some p => Ok p
  | None => lattice_density self o
  end.

(** The masses before the final renormalization, as a function of the
    store the loop starts in: the running masses multiplied, cell by cell,
    by the density of each selected clue in turn. *)
Fixpoint products (self : Mapper num) (h : heap num) (objs : list ref)
  (distribution : list num) : result (list num) :=
  match objs with
  | [] => Ok distribution
  | obj :: objs' =>
      (probs <- density_of self (h obj) ;;
       distribution <- imul distribution probs ;;
       products self h objs' distribution)%py
  end.

(** The cache of a clue model is empty or was filled from the lattice of
    this mapper. *)
Definition cache_fits (self : Mapper num) (o : Location num) : Prop :=
  match pdf o with
  | None => True
  | Some p => lattice_density self o = Ok p
  end.

(** How a clue model can have changed while a mapper ran: not at all, or
    its empty cache was filled with its density over the lattice. *)
Definition settled (self : Mapper num) (o o' : Location num) : Prop :=
  o' = o \/ (pdf o = None /\ exists p, lattice_density self o = Ok p /\ o' = set_pdf o p).

(** A density sequence as [distribution *= probs] reads it against [n]
    cells: itself when it has [n] entries, its one entry repeated when it
    has one, and nothing otherwise. *)
Definition broadcast (n : nat) (probs : list num) : option (list num) :=
  if Nat.eqb (length probs) n then Some probs
  else match probs with
       | [p] => Some (repeat p n)
       | _ => None
       end.

(** Cell by cell multiplication. *)
Definition mul2 (d probs : list num) : list num :=
  map (fun dp => fst dp * snd dp) (combine d probs).

(** The sequence in the attribute [pdf] of a clue model. *)
Definition cached (o : Location num) : list num :=
  match pdf o with
  | Some c => c
  | None => []
  end.

(** The mass of cell [i] before the renormalization, from the prior mass
    of a cell and the density sequences of the selected clues. *)
Definition cell_mass (u : num) (densities : list (list num)) (i : nat) : num :=
  fold_left (fun m dens => m * nth i dens (nofZ 0)) densities u.

(** Later calls of [get_pdf] on one instance, each with its own latitude
    and longitude sequences; the sequences returned are collected. *)
Fixpoint get_pdf_calls (self : Location num) (args : list (list num * list num))
  : result (Location num * list (list num)) :=
  match args with
  | [] => Ok (self, [])
  | (lats, lons) :: args' =>
      match Location_get_pdf self lats lons with
      | Raise e => Raise e
      | Ok (self', p) =>
          match get_pdf_calls self' args' with
          | Raise e => Raise e
          | Ok (self'', ps) => Ok (self'', p :: ps)
          end
      end
  end.

End Statements.

(** The satellite clue of [main.py] with a confidence range of one metre,
    after [get_pdf] on the lattice of resolution 2: each of the four cells
    lies hundreds of standard deviations from the track, where the normal
    density underflows to 0.0. *)
Definition narrow_satellite : Location float :=
  set_pdf (Satellite_init sat_coords (dec 1 3)) [0; 0; 0; 0]%float.

(** Python's [x == 0] on a binary64 number. *)
Definition is_zero (x : float) : bool := PrimFloat.eqb x 0%float.

Local Open Scope R_scope.

(** The Euclidean distance of two points of the plane. *)
Definition euclid (a b : point R) : R :=
  R_sqrt.sqrt (Rsqr (fst a - fst b) + Rsqr (snd a - snd b)).

(** The parameter of the foot of the perpendicular from [p] on the line
    through a segment: 0 at its start, 1 at its end. *)
Definition projection (p : point R) (line : segment R) : R :=
  let '(s, e) := line in
  ((fst p - fst s) * (fst e - fst s) + (snd p - snd s) * (snd e - snd s))
  / (Rsqr (fst e - fst s) + Rsqr (snd e - snd s)).

(** The distance of [p] to the line through a segment. *)
Definition perpendicular (p : point R) (line : segment R) : R :=
  let '(s, e) := line in
  Rabs ((fst e - fst s) * (snd p - snd s) - (snd e - snd s) * (fst p - fst s))
  / R_sqrt.sqrt (Rsqr (fst e - fst s) + Rsqr (snd e - snd s)).

(** Spec 4.1, [crossTrackDistance(pathStart, pathEnd, point)]: the signed
    distance [R * asin (sin (d13 / R) * sin (b13 - b12))], the bearings
    taken in degrees in [[0, 360)] and their difference in radians. *)
Definition crossTrackDistance (pathStart pathEnd p : point R) : R :=
  let d13 := vincenty_km pathStart p in
  let b13 := bearing pathStart p in
  let b12 := bearing pathStart pathEnd in
  6371 * asin (sin (d13 / 6371) * sin ((b13 - b12) * PI / 180)).

Local Close Scope R_scope.

(** ** Notions for the statements about the loader *)

(** The string has no occurrence of the character. *)
Fixpoint free_of (c : Ascii.ascii) (s : string) : bool :=
  match s with
  | EmptyString => true
  | String c' rest => negb (Ascii.eqb c' c) && free_of c rest
  end.

(** Neither a comma nor a newline occurs in the field. *)
Definition plain (s : string) : bool := free_of comma s && free_of newline s.

(** A river file: one line [lat,lon] for each pair of fields, each line
    ended by a newline. *)
Fixpoint river_file (fields : list (string * string)) : string :=
  match fields with
  | [] => EmptyString
  | (lat, lon) :: fields' =>
      (lat ++ String comma (lon ++ String newline (river_file fields')))%string
  end.

(** The point of parameter [t] on the line through a segment: its start
    at 0, its end at 1. *)
Definition along (line : segment R) (t : R) : point R :=
  let '(s, e) := line in
  (fst s + t * (fst e - fst s), snd s + t * (snd e - snd s))%R.

(** No two consecutive coordinates of the sequence are equal. *)
Definition distinct_neighbours (cs : list (point R)) : Prop :=
  forall k a b, nth_error cs k = Some a -> nth_error cs (S k) = Some b -> a <> b.

(** A clue just built, with a positive confidence range, by [Satellite]
    on two coordinates, or by [River] on at least two coordinates of
    which no two consecutive ones are equal. *)
Definition normal_clue (o : Location R) : Prop :=
  (exists s e ci, (0 < ci)%R /\ o = Satellite_init [s; e] ci)
  \/ (exists cs ci, (0 < ci)%R /\ 2 <= length cs /\ distinct_neighbours cs
                    /\ o = River_init cs ci).

(** A store for examples: the satellite of [main.py] under reference 0 and
    a river of two coordinates under every other reference, both freshly
    built. *)
Definition two_clues : heap R :=
  fun r => match r with
           | O => Satellite_init sat_coords 2.4%R
           | _ => River_init [(52.5, 13.3); (52.5, 13.4)]%R 2.73%R
           end.

(** A plotting library for examples: a contour set of two levels, the
    first with one path of two vertices and the second with none, grey
    rows, and one colour string. *)
Definition example_pyplot : Pyplot R :=
  {| plt_contour := fun _ _ _ =>
       Ok ([1; 2]%R, [[[(1, 2); (3, 4)]%R]; []]);
     sm_to_rgba := map (fun x : R => (x, x, x, 1%R));
     format_rgb := fun _ _ _ => Ok "#7f7f7f"%string |}.

(** A store of two clues with cached densities over four cells, in
    binary64: 2^-1074, the least positive number, at every cell under
    reference 0, and 4 at every cell under every other reference. *)
Definition faint_and_sharp : heap float :=
  fun r => match r with
           | O => set_pdf (Satellite_init sat_coords (dec 24 1))
                    [0x1p-1074; 0x1p-1074; 0x1p-1074; 0x1p-1074]%float
           | _ => set_pdf (Satellite_init sat_coords (dec 2 1))
                    [4; 4; 4; 4]%float
           end.

Unset Implicit Arguments.

(** * Clue models, over any arithmetic and any numeric library *)

Section Clues.

Context {num : Type} {A : Arith num} {L : Lib num}.

Lemma prob_set_pdf (self : Location num) (c : list num) (p : point num) :
  prob (set_pdf self c) p = prob self p.
Proof. reflexivity. Qed.

Lemma mapM_ext {X Y : Type} (f g : X -> result Y) (l : list X) :
  (forall x, f x = g x) -> mapM f l = mapM g l.
Proof.
  intros Hfg. induction l as [| x l IH]; simpl; [reflexivity |].
  rewrite Hfg, IH. reflexivity.
Qed.

(** A call of [get_pdf] that returns leaves the sequence it returns in the
    attribute [pdf]. *)
Lemma Location_get_pdf_caches (self self' : Location num)
  (lats lons d : list num) :
  Location_get_pdf self lats lons = Ok (self', d) -> pdf self' = Some d.
Proof.
  unfold Location_get_pdf. destruct (pdf self) as [c |] eqn:Hc.
  - intros H. inversion H; subst. exact Hc.
  - destruct (mapM (prob self) (combine lats lons)); simpl; intros H;
      inversion H; subst. reflexivity.
Qed.

(** With the attribute set, [get_pdf] ignores its arguments. *)
Lemma Location_get_pdf_hit (self : Location num) (c lats lons : list num) :
  pdf self = Some c -> Location_get_pdf self lats lons = Ok (self, c).
Proof. intros H. unfold Location_get_pdf. rewrite H. reflexivity. Qed.

(** ** C10: the cache is not keyed by the lattice *)

(** C10: a call of [get_pdf] that returns stores the sequence it returns
    in the attribute [pdf].  When the attribute was not set before, that
    sequence is [prob] at the coordinates of this call, pair by pair and
    in their order, and nothing else of the model changes; when it was
    set, it is the sequence already held.  From then on every call on the
    model returns that same sequence and leaves the model as it is,
    whatever latitude and longitude sequences the later calls pass. *)
Theorem get_pdf_returns_first_density (self self' : Location num)
  (lats lons d : list num) (later : list (list num * list num)) :
  Location_get_pdf self lats lons = Ok (self', d) ->
  pdf self' = Some d
  /\ (pdf self = None ->
      mapM (prob self) (combine lats lons) = Ok d /\ self' = set_pdf self d)
  /\ (forall c, pdf self = Some c -> d = c /\ self' = self)
  /\ get_pdf_calls self' later = Ok (self', map (fun _ => d) later)
  /\ forall lats' lons', Location_get_pdf self' lats' lons' = Ok (self', d).
Proof.
  intros H.
  assert (Hpdf : pdf self' = Some d) by (eapply Location_get_pdf_caches; exact H).
  split; [exact Hpdf |]. split; [| split; [| split]].
  - intros Hnone. unfold Location_get_pdf in H. rewrite Hnone in H.
    destruct (mapM (prob self) (combine lats lons)) as [p |]; cbn [rbind] in H;
      [| discriminate].
    inversion H; subst. split; reflexivity.
  - intros c Hc. rewrite (Location_get_pdf_hit self c lats lons Hc) in H.
    inversion H; subst. split; reflexivity.
  - induction later as [| [lats' lons'] later IH]; simpl; [reflexivity |].
    rewrite (Location_get_pdf_hit self' d lats' lons' Hpdf), IH. reflexivity.
  - intros lats' lons'. apply Location_get_pdf_hit. exact Hpdf.
Qed.

(** ** C3: construction and configuration *)

Lemma length_make_linear (cs : list (point num)) :
  length (make_linear cs) = Nat.pred (length cs).
Proof.
  unfold make_linear. cbv zeta.
  set (xy := map (fun lon_lat => convert_xy (fst lon_lat) (snd lon_lat)) cs).
  assert (Hxy : length xy = length cs) by apply length_map.
  unfold segment.
  rewrite length_combine, removelast_firstn_len, length_firstn.
  destruct xy as [| x xy']; simpl in *; lia.
Qed.

Lemma py_min_raises (l : list num) : value (py_min l) = None <-> l = [].
Proof. destruct l; simpl; split; intros H; congruence. Qed.

(** C3, amended: construction checks nothing and the distribution
    parameters never raise.  A [River] raises exactly when its distance is
    evaluated and it was built from fewer than two coordinates, a
    [Satellite] exactly when its distance is evaluated and it was not
    built from two coordinates, a [BGate] exactly when its distance is
    evaluated and it was built from none; [prob] raises only when the
    distance does, so for no value of [mode], [mean] or [ci_range]. *)
Theorem only_distance_raises (cs : list (point num)) (ci_range mean mode : num)
  (p : point num) :
  (value (distance (River_init cs ci_range) p) = None <-> length cs < 2)
  /\ (value (distance (Satellite_init cs ci_range) p) = None <-> length cs <> 2)
  /\ (value (distance (BGate_init cs mean mode) p) = None <-> length cs = 0)
  /\ (forall self : Location num,
        value (prob self p) = None <-> value (distance self p) = None).
Proof.
  repeat split.
  - unfold distance, River_init, River_distance; cbn [own].
    rewrite py_min_raises. intros H.
    apply (f_equal (@length _)) in H. rewrite length_map, length_make_linear in H.
    simpl in H. lia.
  - unfold distance, River_init, River_distance; cbn [own].
    rewrite py_min_raises. intros H.
    apply length_zero_iff_nil. rewrite length_map, length_make_linear. lia.
  - destruct cs as [| a [| b [| c cs']]]; simpl; intros H; try lia; discriminate.
  - destruct cs as [| a [| b [| c cs']]]; simpl; intros H; try reflexivity; lia.
  - destruct cs; simpl; intros H; [reflexivity | discriminate].
  - destruct cs; simpl; intros H; [reflexivity | discriminate].
  - unfold prob. destruct (distance self p); simpl; intros H;
      [discriminate | reflexivity].
  - unfold prob. destruct (distance self p); simpl; intros H;
      [discriminate | reflexivity].
Qed.

End Clues.

(** * The grid engine, over any arithmetic and any numeric library *)

Section Grid.

Context {num : Type} {A : Arith num} {L : Lib num}.

(** ** The lattice *)

Lemma length_np_linspace (start stop : num) (n : nat) :
  length (np_linspace start stop n) = n.
Proof.
  destruct n as [| [| m]]; simpl; try reflexivity.
  rewrite length_app, length_map, length_seq. simpl. lia.
Qed.

Lemma length_flat_map_const {X Y : Type} (f : X -> list Y) (l : list X) (k : nat) :
  (forall x, length (f x) = k) -> length (flat_map f l) = length l * k.
Proof.
  intros Hf. induction l as [| x l IH]; simpl; [reflexivity |].
  rewrite length_app, Hf, IH. lia.
Qed.

(** The lattice of a mapper built for resolution [n] has [n * n] cells,
    each with a latitude and a longitude. *)
Lemma length_lattice (objs : list ref) (n : nat) :
  length (latitudes (Mapper_init objs n)) = n * n
  /\ length (longitudes (Mapper_init objs n)) = n * n.
Proof.
  unfold Mapper_init, generate_mesh_grid. cbn [latitudes longitudes].
  split.
  - rewrite (length_flat_map_const _ _ n).
    + rewrite length_np_linspace; reflexivity.
    + intros x; apply length_np_linspace.
  - rewrite (length_flat_map_const _ _ n).
    + rewrite length_np_linspace; reflexivity.
    + intros x; rewrite length_map; apply length_np_linspace.
Qed.

(** ** Multiplying the running masses by a density sequence *)

Lemma length_imul (d probs d' : list num) :
  imul d probs = Ok d' -> length d' = length d.
Proof.
  unfold imul. destruct (Nat.eqb (length probs) (length d)) eqn:E.
  - apply Nat.eqb_eq in E. intros H; inversion H; subst.
    rewrite length_map, length_combine. lia.
  - destruct probs as [| p [| q probs']]; intros H; inversion H; subst.
    apply length_map.
Qed.

Lemma broadcast_length (n : nat) (probs probs' : list num) :
  broadcast n probs = Some probs' -> length probs' = n.
Proof.
  unfold broadcast. destruct (Nat.eqb (length probs) n) eqn:E.
  - apply Nat.eqb_eq in E. intros H; injection H as <-. exact E.
  - destruct probs as [| p [| q probs0]]; intros H; try discriminate.
    injection H as <-. apply repeat_length.
Qed.

Lemma mul2_repeat (d : list num) (p : num) :
  map (fun x => nmul x p) d = mul2 d (repeat p (length d)).
Proof.
  unfold mul2. induction d as [| x d IH]; simpl; [reflexivity |].
  rewrite IH. reflexivity.
Qed.

Lemma imul_broadcast (d probs : list num) :
  imul d probs =
  match broadcast (length d) probs with
  | Some probs' => Ok (mul2 d probs')
  | None => Raise ValueError
  end.
Proof.
  unfold imul, broadcast.
  destruct (Nat.eqb (length probs) (length d)); [reflexivity |].
  destruct probs as [| p [| q probs0]]; try reflexivity.
  rewrite mul2_repeat. reflexivity.
Qed.

Lemma length_mul2 (d probs : list num) :
  length probs = length d -> length (mul2 d probs) = length d.
Proof.
  intros H. unfold mul2. rewrite length_map, length_combine. lia.
Qed.

Lemma length_mapM {X Y : Type} (f : X -> result Y) (l : list X) (ys : list Y) :
  mapM f l = Ok ys -> length ys = length l.
Proof.
  revert ys. induction l as [| x l IH]; simpl; intros ys H.
  - inversion H; reflexivity.
  - destruct (f x); [| discriminate].
    destruct (mapM f l) as [bs |]; [| discriminate].
    inversion H; subst. simpl. rewrite (IH bs eq_refl). reflexivity.
Qed.

Lemma nth_error_mapM {X Y : Type} (f : X -> result Y) (l : list X) (ys : list Y) :
  mapM f l = Ok ys ->
  forall i x, nth_error l i = Some x ->
  exists y, nth_error ys i = Some y /\ f x = Ok y.
Proof.
  revert ys. induction l as [| a l IH]; simpl; intros ys H i x Hi.
  - destruct i; discriminate.
  - destruct (f a) as [b |] eqn:Hfa; [| discriminate].
    destruct (mapM f l) as [bs |]; [| discriminate].
    inversion H; subst. destruct i as [| i]; simpl in *.
    + inversion Hi; subst. exists b. split; [reflexivity | exact Hfa].
    + apply (IH bs eq_refl i x Hi).
Qed.

Lemma length_idiv (d : list num) (s : num) : length (idiv d s) = length d.
Proof. apply length_map. Qed.

(** ** What [get_pdf] does to the store *)

Lemma get_pdf_density (self : Mapper num) (o : Location num) :
  Location_get_pdf o (latitudes self) (longitudes self) =
  match density_of self o with
  | Ok p => Ok (match pdf o with Some _ => o | None => set_pdf o p end, p)
  | Raise e => Raise e
  end.
Proof.
  unfold Location_get_pdf, density_of, lattice_density.
  destruct (pdf o) as [c |]; [reflexivity |].
  destruct (mapM (prob o) (combine (latitudes self) (longitudes self)));
    reflexivity.
Qed.

Lemma lattice_density_set_pdf (self : Mapper num) (o : Location num) (c : list num) :
  lattice_density self (set_pdf o c) = lattice_density self o.
Proof. reflexivity. Qed.

Lemma settled_refl (self : Mapper num) (o : Location num) : settled self o o.
Proof. left; reflexivity. Qed.

Lemma settled_trans (self : Mapper num) (o1 o2 o3 : Location num) :
  settled self o1 o2 -> settled self o2 o3 -> settled self o1 o3.
Proof.
  intros [-> | (Hn & p & Hp & ->)] [-> | (Hn' & p' & Hp' & ->)].
  - left; reflexivity.
  - right. split; [exact Hn' |]. exists p'. split; [exact Hp' | reflexivity].
  - right. split; [exact Hn |]. exists p. split; [exact Hp | reflexivity].
  - simpl in Hn'. discriminate.
Qed.

Lemma settled_density (self : Mapper num) (o o' : Location num) :
  settled self o o' -> density_of self o' = density_of self o.
Proof.
  intros [-> | (Hn & p & Hp & ->)]; [reflexivity |].
  unfold density_of. rewrite Hn. simpl. symmetry; exact Hp.
Qed.

Lemma settled_cache_fits (self : Mapper num) (o o' : Location num) :
  settled self o o' -> cache_fits self o -> cache_fits self o'.
Proof.
  intros [-> | (Hn & p & Hp & ->)] Hfit; [exact Hfit |].
  unfold cache_fits. simpl. rewrite lattice_density_set_pdf. exact Hp.
Qed.

Lemma settled_prob (self : Mapper num) (o o' : Location num) (p : point num) :
  settled self o o' -> prob o' p = prob o p.
Proof. intros [-> | (_ & c & _ & ->)]; reflexivity. Qed.

(** One call of [get_pdf] on a reference. *)
Lemma get_pdf_step (self : Mapper num) (obj : ref) (h : heap num) :
  match density_of self (h obj) with
  | Ok p =>
      exists h', get_pdf obj (latitudes self) (longitudes self) h = (h', Ok p)
                 /\ pdf (h' obj) = Some p
                 /\ forall r, settled self (h r) (h' r)
  | Raise e =>
      get_pdf obj (latitudes self) (longitudes self) h = (h, Raise e)
  end.
Proof.
  unfold get_pdf. rewrite get_pdf_density.
  destruct (density_of self (h obj)) as [p |] eqn:Hd; [| reflexivity].
  eexists. split; [reflexivity |]. unfold upd. split.
  - rewrite Nat.eqb_refl. unfold density_of in Hd.
    destruct (pdf (h obj)) as [c |] eqn:Hc; [| reflexivity].
    inversion Hd; subst. exact Hc.
  - intros r. destruct (Nat.eqb r obj) eqn:E; [| apply settled_refl].
    apply Nat.eqb_eq in E; subst r.
    unfold density_of in Hd. destruct (pdf (h obj)) as [c |] eqn:Hc.
    + left; reflexivity.
    + right. split; [exact Hc |]. exists p. split; [exact Hd | reflexivity].
Qed.

Lemma products_ext (self : Mapper num) (h h' : heap num) (objs : list ref)
  (d : list num) :
  (forall r, density_of self (h' r) = density_of self (h r)) ->
  products self h' objs d = products self h objs d.
Proof.
  intros Hh. revert d. induction objs as [| obj objs IH]; intros d; simpl;
    [reflexivity |].
  rewrite Hh. destruct (density_of self (h obj)); simpl; [| reflexivity].
  destruct (imul d a); simpl; [apply IH | reflexivity].
Qed.

(** The loop of [get_distribution] computes [products], a function of the
    store it starts in; it changes the store only by filling empty
    caches, and leaves every selected clue with its density cached. *)
Lemma for_objs_products (self : Mapper num) (objs : list ref) :
  forall (d : list num) (h : heap num),
  exists h',
    for_objs self objs d h = (h', products self h objs d)
    /\ (forall r, settled self (h r) (h' r))
    /\ (forall d', products self h objs d = Ok d' ->
        forall r, In r objs ->
        exists p, pdf (h' r) = Some p /\ density_of self (h r) = Ok p).
Proof.
  induction objs as [| obj objs IH]; intros d h.
  - exists h. simpl. split; [reflexivity |]. split.
    + intros r; apply settled_refl.
    + intros d' _ r [].
  - cbn [for_objs products]. unfold bind at 1.
    pose proof (get_pdf_step self obj h) as Hstep.
    destruct (density_of self (h obj)) as [p |] eqn:Hd.
    + destruct Hstep as (h1 & Hrun & Hpdf & Hset). rewrite Hrun.
      unfold bind at 1, lift. simpl rbind.
      destruct (imul d p) as [d1 |] eqn:Hmul.
      * destruct (IH d1 h1) as (h2 & Hrun2 & Hset2 & Hall).
        exists h2. rewrite Hrun2.
        assert (Hext : products self h1 objs d1 = products self h objs d1).
        { apply products_ext. intros r. apply settled_density, Hset. }
        split; [rewrite Hext; reflexivity |]. split.
        -- intros r. eapply settled_trans; [apply Hset | apply Hset2].
        -- intros d' Hd' r [<- | Hin].
           ++ exists p. split; [| exact Hd].
              destruct (Hset2 obj) as [-> | (Hn & _)]; [exact Hpdf |].
              rewrite Hpdf in Hn. discriminate.
           ++ change (products self h objs d1 = Ok d') in Hd'.
              rewrite <- Hext in Hd'.
              destruct (Hall d' Hd' r Hin) as (q & Hq & Hdq).
              exists q. split; [exact Hq |].
              rewrite <- Hdq. symmetry. apply settled_density, Hset.
      * exists h1. split; [reflexivity |]. split; [exact Hset |].
        intros d' Hd'. discriminate.
    + rewrite Hstep. exists h. simpl. split; [reflexivity |]. split.
      * intros r; apply settled_refl.
      * intros d' Hd'. discriminate.
Qed.

(** [get_distribution] in one equation: the result is [products]
    renormalized once. *)
Lemma get_distribution_products (self : Mapper num) (objs : list ref) (h : heap num) :
  snd (get_distribution self objs h) =
  match products self h objs (prior self) with
  | Ok d => Ok (idiv d (np_sum d))
  | Raise e => Raise e
  end.
Proof.
  unfold get_distribution, bind.
  destruct (for_objs_products self objs (prior self) h) as (h' & Hrun & _).
  rewrite Hrun. destruct (products self h objs (prior self)); reflexivity.
Qed.

Lemma length_products (self : Mapper num) (h : heap num) (objs : list ref) :
  forall d d', products self h objs d = Ok d' -> length d' = length d.
Proof.
  induction objs as [| obj objs IH]; intros d d'; simpl.
  - intros H; inversion H; reflexivity.
  - destruct (density_of self (h obj)) as [p |]; simpl; [| discriminate].
    destruct (imul d p) as [d1 |] eqn:Hmul; simpl; [| discriminate].
    intros H. rewrite (IH _ _ H). eapply length_imul; eassumption.
Qed.

Lemma length_prior (self : Mapper num) :
  length (prior self) = length (latitudes self).
Proof. unfold prior, idiv, np_ones. rewrite length_map, repeat_length. reflexivity. Qed.

End Grid.

(** * Binary64: what the interpreter computes *)

Section Binary64.

(** ** Zeros and NaN under the IEEE operations *)

Lemma nan_of_spec (x : float) : Prim2SF x = S754_nan -> x = nan.
Proof.
  intros H. rewrite <- (SF2Prim_Prim2SF x), H. reflexivity.
Qed.

Lemma sub_diag_zn (x : float) : zero_or_nan (x - x)%float.
Proof.
  unfold zero_or_nan. rewrite sub_spec.
  destruct (Prim2SF x) as [s | s | | s m e]; simpl; try exact I.
  - destruct s; exact I.
  - destruct s; exact I.
  - unfold SF64sub, SFsub. cbv zeta. rewrite Z.sub_diag. simpl. exact I.
Qed.

Lemma mul_zn_r (x z : float) : zero_or_nan z -> zero_or_nan (x * z)%float.
Proof.
  unfold zero_or_nan. rewrite mul_spec.
  destruct (Prim2SF x), (Prim2SF z); simpl; tauto.
Qed.

Lemma add_zn (x z : float) :
  zero_or_nan x -> zero_or_nan z -> zero_or_nan (x + z)%float.
Proof.
  unfold zero_or_nan. rewrite add_spec.
  destruct (Prim2SF x) as [[]| | |], (Prim2SF z) as [[]| | |]; simpl; tauto.
Qed.

Lemma sqrt_zn (x : float) : zero_or_nan x -> zero_or_nan (PrimFloat.sqrt x).
Proof.
  unfold zero_or_nan. rewrite sqrt_spec.
  destruct (Prim2SF x) as [[]| | |]; simpl; tauto.
Qed.

Lemma div_zn (x z : float) :
  zero_or_nan x -> zero_or_nan z -> (x / z)%float = nan.
Proof.
  unfold zero_or_nan. intros Hx Hz. apply nan_of_spec. rewrite div_spec.
  destruct (Prim2SF x) as [[]| | |], (Prim2SF z) as [[]| | |]; simpl; tauto.
Qed.

Lemma mul_nan_l (x : float) : (nan * x)%float = nan.
Proof. apply nan_of_spec. rewrite mul_spec. reflexivity. Qed.

Lemma add_nan_r (x : float) : (x + nan)%float = nan.
Proof.
  apply nan_of_spec. rewrite add_spec. simpl.
  destruct (Prim2SF x); reflexivity.
Qed.

Lemma sub_nan_l (x : float) : (nan - x)%float = nan.
Proof. apply nan_of_spec. rewrite sub_spec. reflexivity. Qed.

Lemma ltb_nan_r (x : float) : (x <? nan)%float = false.
Proof.
  rewrite ltb_spec. unfold SFltb.
  replace (Prim2SF nan) with S754_nan by reflexivity.
  destruct (Prim2SF x) as [[]| [] | | [] ? ?]; reflexivity.
Qed.

(** Once the running minimum is a NaN it stays one: nothing compares
    below it. *)
Lemma min_from_nan (l : list float) : min_from nan l = nan.
Proof.
  induction l as [| x l IH]; simpl; [reflexivity |].
  change (nltb x nan) with (PrimFloat.ltb x nan).
  rewrite ltb_nan_r. exact IH.
Qed.

(** The squared length that [line_distance] divides by is a zero or a NaN
    when the two ends of the segment coincide. *)
Lemma zero_length_divisor (s : point float) :
  let line_x := (fst s - fst s)%float in
  let line_y := (snd s - snd s)%float in
  zero_or_nan (sq (nsqrt (sq line_x + sq line_y)%num)).
Proof.
  cbv zeta. unfold sq. cbn [nadd nmul nsqrt binary64].
  apply mul_zn_r, sqrt_zn, add_zn; apply mul_zn_r; apply sub_diag_zn.
Qed.

(** ** C4: a segment of length zero *)

(** C4, as stated, fails.  At the query point (1, 1) and the segment from
    (0, 0) to (0, 0) the squared length that [line_distance] divides by is
    0 and the value returned is a NaN: the segment is not treated as a
    point (the distance would be the square root of 2).  Nor is it
    skipped: [min], as [River.distance] takes it, returns the NaN when the
    segment comes first and the distance to the other segment when it
    comes second. *)
Lemma line_distance_zero_length_at_origin :
  let p := (1, 1)%float in
  let degenerate := ((0, 0), (0, 0))%float in
  let other := ((0, 0), (1, 0))%float in
  sq (nsqrt (nadd (sq (0 - 0)%float) (sq (0 - 0)%float))) = 0%float
  /\ line_distance p degenerate = nan
  /\ py_min (map (line_distance p) [degenerate; other]) = Ok nan
  /\ py_min (map (line_distance p) [other; degenerate]) = Ok 1%float.
Proof.
  vm_compute. repeat split; reflexivity.
Qed.

(** C4, amended: [line_distance] has no guard.  For every query point and
    every segment whose start and end coincide it divides by a squared
    length that is a zero (or a NaN) and returns a NaN, without raising;
    and [River.distance] returns that NaN whenever such a segment is the
    first of the river, whatever numeric library is linked. *)
Theorem line_distance_zero_length (L : Lib float) (p s : point float)
  (lines : list (segment float)) :
  line_distance p (s, s) = nan
  /\ River_distance ((s, s) :: lines) p = Ok nan.
Proof.
  assert (Hld : forall q : point float, line_distance q (s, s) = nan).
  { intros q. unfold line_distance.
    cbn [nsub nadd nmul ndiv nsqrt binary64 sq fst snd nofZ float_of_Z].
    set (lx := (fst s - fst s)%float). set (ly := (snd s - snd s)%float).
    assert (Hx : zero_or_nan lx) by apply sub_diag_zn.
    assert (Hy : zero_or_nan ly) by apply sub_diag_zn.
    assert (Hu : (((fst q - fst s) * lx + (snd q - snd s) * ly) /
                  (PrimFloat.sqrt (lx * lx + ly * ly)
                   * PrimFloat.sqrt (lx * lx + ly * ly)))%float = nan).
    { apply div_zn.
      - apply add_zn; apply mul_zn_r; assumption.
      - apply (zero_length_divisor s). }
    rewrite Hu.
    replace (np_clip nan 0%float (float_of_Z 1)) with nan by reflexivity.
    rewrite !mul_nan_l, !add_nan_r, !sub_nan_l, mul_nan_l, add_nan_r.
    reflexivity. }
  split; [apply Hld |].
  unfold River_distance. cbn [map py_min]. rewrite Hld.
  rewrite min_from_nan. reflexivity.
Qed.

End Binary64.

(** * Binary64: the grid engine on a product of zero mass *)

Section Binary64Grid.

Lemma is_zero_cases (x : float) :
  is_zero x = true -> x = 0%float \/ x = (-0)%float.
Proof.
  unfold is_zero. rewrite FloatAxioms.eqb_spec.
  destruct (Prim2SF x) as [s | s | | s m e] eqn:E; try discriminate.
  - intros _. rewrite <- (SF2Prim_Prim2SF x), E.
    destruct s; [right | left]; reflexivity.
  - destruct s; discriminate.
  - destruct s; discriminate.
Qed.

Lemma fold_add_zeros (d : list float) :
  forallb is_zero d = true -> fold_left PrimFloat.add d 0%float = 0%float.
Proof.
  induction d as [| x d IH]; simpl; [reflexivity |].
  intros H. apply andb_prop in H. destruct H as [Hx Hd].
  destruct (is_zero_cases x Hx) as [-> | ->]; exact (IH Hd).
Qed.

Lemma idiv_zeros (d : list float) :
  forallb is_zero d = true -> idiv d 0%float = map (fun _ => nan) d.
Proof.
  unfold idiv. induction d as [| x d IH]; cbn [map forallb]; [reflexivity |].
  intros H. apply andb_prop in H. destruct H as [Hx Hd].
  rewrite (IH Hd).
  destruct (is_zero_cases x Hx) as [-> | ->]; reflexivity.
Qed.

(** ** C5: the total mass is zero *)

(** C5, as stated, fails.  On the lattice of resolution 2 select the one
    clue [narrow_satellite], whose density is 0.0 at each of the four
    cells: the masses before the final renormalization are all zero and
    add up to zero, and [get_distribution] raises nothing and returns four
    NaN, whatever numeric library is linked. *)
Lemma zero_mass_returns_nan_posterior :
  np_sum [0; 0; 0; 0]%float = 0%float
  /\ forall L : Lib float,
     products (Mapper_init [0%nat] 2) (fun _ => narrow_satellite) [0%nat]
       (prior (Mapper_init [0%nat] 2)) = Ok [0; 0; 0; 0]%float
     /\ snd (get_distribution (Mapper_init [0%nat] 2) [0%nat]
               (fun _ => narrow_satellite)) = Ok [nan; nan; nan; nan].
Proof.
  split; [reflexivity |].
  intros L. split; vm_compute; reflexivity.
Qed.

(** C5, amended: when the product of the prior and the clue densities is
    zero at every cell, so that its total mass is zero, [get_distribution]
    raises nothing: it returns a posterior of as many entries as the
    lattice has cells, each of them NaN. *)
Theorem zero_mass_gives_nan (L : Lib float) (self : Mapper float)
  (h : heap float) (objs : list ref) (d : list float) :
  products self h objs (prior self) = Ok d ->
  forallb is_zero d = true ->
  np_sum d = 0%float
  /\ snd (get_distribution self objs h) = Ok (map (fun _ => nan) d)
  /\ length d = length (latitudes self).
Proof.
  intros Hd Hz.
  assert (Hsum : np_sum d = 0%float) by (apply fold_add_zeros; exact Hz).
  split; [exact Hsum |]. split.
  - rewrite get_distribution_products, Hd, Hsum. f_equal.
    apply idiv_zeros; exact Hz.
  - rewrite (length_products self h objs _ _ Hd). apply length_prior.
Qed.

(** The hypotheses are met by [narrow_satellite] on the lattice of
    resolution 2; its density is read from the cache, so no routine of the
    numeric library is called and any will do. *)
Lemma zero_mass_gives_nan_witness :
  exists L : Lib float,
    np_sum [0; 0; 0; 0]%float = 0%float
    /\ snd (get_distribution (Mapper_init [0%nat] 2) [0%nat]
              (fun _ => narrow_satellite)) = Ok [nan; nan; nan; nan]
    /\ 4 = length (latitudes (Mapper_init (num := float) [0%nat] 2)).
Proof.
  exists {| np_pi := nan; np_sin := fun x => x; np_cos := fun x => x;
            np_arcsin := fun x => x; np_arctan2 := fun y _ => y;
            np_exp := fun x => x; np_log := fun x => x;
            np_mod := fun x _ => x; scs_pdf := fun _ x => x |}.
  apply (zero_mass_gives_nan _ (Mapper_init [0%nat] 2)
           (fun _ => narrow_satellite) [0%nat] [0; 0; 0; 0]%float).
  - vm_compute. reflexivity.
  - vm_compute. reflexivity.
Defined.

End Binary64Grid.
(** * Binary64: underflow *)

Section Binary64Underflow.

(** ** C8: a segment whose squared length underflows *)

(** C8, as stated, fails in binary64.  The segment from (0, 0) to
    (2^-600, 0) is not degenerate, but the square of its length, 2^-1200,
    rounds to zero.  For the query point (0, 1), whose projection falls on
    the start of the segment, [line_distance] divides 0 by 0 and returns a
    NaN; the distance of the point to the start, to the end and to the
    line through the segment is 1. *)
Lemma line_distance_of_tiny_segment_is_nan :
  let p := (0, 1)%float in
  let start := (0, 0)%float in
  let end_ := (0x1p-600, 0)%float in
  PrimFloat.eqb (fst end_) (fst start) = false
  /\ sq (nsqrt (nadd (sq (fst end_ - fst start)%float)
                  (sq (snd end_ - snd start)%float))) = 0%float
  /\ line_distance p (start, end_) = nan
  /\ nsqrt (nadd (sq (fst start - fst p)%float) (sq (snd start - snd p)%float))
     = 1%float
  /\ nsqrt (nadd (sq (fst end_ - fst p)%float) (sq (snd end_ - snd p)%float))
     = 1%float.
Proof.
  vm_compute. repeat split; reflexivity.
Qed.

(** ** C2: a product that underflows in one order only *)

(** C2, as stated, fails in binary64.  On the lattice of resolution 2, one
    clue holds the density 2^-1074 at each of the four cells and another
    the density 4.  With the first clue first, the prior 0.25 times
    2^-1074 rounds to zero, the total mass is zero and the posterior is
    four NaN; with the second clue first, the masses are 1 and then
    2^-1074, and the posterior is 0.25 at every cell.  This holds whatever
    numeric library is linked: the densities are the cached ones of
    [faint_and_sharp]. *)
Lemma order_matters_when_a_product_underflows :
  (forall L : Lib float,
     snd (get_distribution (Mapper_init [0%nat; 1%nat] 2) [0%nat; 1%nat]
            faint_and_sharp)
     = Ok [nan; nan; nan; nan])
  /\ (forall L : Lib float,
        snd (get_distribution (Mapper_init [0%nat; 1%nat] 2) [1%nat; 0%nat]
               faint_and_sharp)
        = Ok [0.25; 0.25; 0.25; 0.25]%float).
Proof.
  split; intros L; vm_compute; reflexivity.
Qed.

End Binary64Underflow.

(** * Exact arithmetic: the clue models over the real numbers *)

Section ExactClues.

Local Open Scope R_scope.

Lemma Rltb_true (x y : R) : x < y -> Rltb x y = true.
Proof. unfold Rltb. destruct (Rlt_dec x y); tauto. Qed.

Lemma Rltb_false (x y : R) : y <= x -> Rltb x y = false.
Proof. unfold Rltb. destruct (Rlt_dec x y); [lra | reflexivity]. Qed.

Lemma Rleb_true (x y : R) : x <= y -> Rleb x y = true.
Proof. unfold Rleb. destruct (Rle_dec x y); tauto. Qed.

Lemma Rleb_false (x y : R) : y < x -> Rleb x y = false.
Proof. unfold Rleb. destruct (Rle_dec x y); [lra | reflexivity]. Qed.

(** ** C8: the projection parameter is clamped *)

Lemma clip_unit (u : R) :
  np_clip u (nofZ 0) (nofZ 1) = Rmax 0 (Rmin 1 u).
Proof.
  unfold np_clip; cbn [nltb nofZ exact]. unfold Rltb.
  destruct (Rlt_dec u 0), (Rlt_dec 1 u); try lra.
  - rewrite Rmax_left; [reflexivity |]. unfold Rmin. destruct (Rle_dec 1 u); lra.
  - rewrite Rmin_left by lra. rewrite Rmax_right; lra.
  - rewrite Rmin_right by lra. rewrite Rmax_right; lra.
Qed.

Lemma segment_length_pos (s e : point R) :
  s <> e -> 0 < Rsqr (fst e - fst s) + Rsqr (snd e - snd s).
Proof.
  intros Hne. destruct s as [s0 s1], e as [e0 e1]; simpl. unfold Rsqr.
  destruct (Req_dec s0 e0) as [H0 | H0]; destruct (Req_dec s1 e1) as [H1 | H1].
  - subst. congruence.
  - assert (0 < (e1 - s1) * (e1 - s1)) by (apply Rsqr_pos_lt; lra). nra.
  - assert (0 < (e0 - s0) * (e0 - s0)) by (apply Rsqr_pos_lt; lra). nra.
  - assert (0 < (e0 - s0) * (e0 - s0)) by (apply Rsqr_pos_lt; lra). nra.
Qed.

(** On a segment of positive length the squared length that
    [line_distance] divides by is the sum of squares itself, and the value
    returned is the distance to the point of parameter [u] clamped. *)
Lemma line_distance_unfold (p s e : point R) :
  s <> e ->
  line_distance p (s, e) =
  let u := Rmax 0 (Rmin 1 (projection p (s, e))) in
  R_sqrt.sqrt (Rsqr (fst s + u * (fst e - fst s) - fst p)
               + Rsqr (snd s + u * (snd e - snd s) - snd p)).
Proof.
  intros Hne. pose proof (segment_length_pos s e Hne) as Hpos.
  unfold line_distance, projection, sq.
  cbn [nsub nadd nmul ndiv nsqrt exact].
  rewrite sqrt_sqrt by (unfold Rsqr in Hpos; lra).
  rewrite clip_unit. reflexivity.
Qed.

(** C8: on a segment whose ends differ, a query point whose projection
    falls at or beyond the end of the segment gets its Euclidean distance
    to that end, one whose projection falls at or before the start gets
    its distance to the start, and any other point gets its perpendicular
    distance to the line through the segment. *)
Theorem line_distance_clamps (p s e : point R) :
  s <> e ->
  (1 <= projection p (s, e) -> line_distance p (s, e) = euclid e p)
  /\ (projection p (s, e) <= 0 -> line_distance p (s, e) = euclid s p)
  /\ (0 <= projection p (s, e) <= 1 ->
      line_distance p (s, e) = perpendicular p (s, e)).
Proof.
  intros Hne. rewrite (line_distance_unfold p s e Hne).
  pose proof (segment_length_pos s e Hne) as Hpos.
  cbv zeta. repeat split; intros Hu.
  - rewrite Rmin_left by lra. rewrite Rmax_right by lra.
    unfold euclid. f_equal. unfold Rsqr. ring.
  - rewrite Rmin_right by lra. rewrite Rmax_left by lra.
    unfold euclid. f_equal. unfold Rsqr. ring.
  - rewrite Rmin_right by lra. rewrite Rmax_right by lra.
    unfold perpendicular, projection in *.
    destruct p as [p0 p1], s as [s0 s1], e as [e0 e1]; cbn [fst snd] in *.
    set (D := Rsqr (e0 - s0) + Rsqr (e1 - s1)) in *.
    rewrite <- sqrt_Rsqr_abs. rewrite <- sqrt_div_alt by exact Hpos.
    f_equal. unfold D, Rsqr in *. field. lra.
Qed.

(** The three cases at the segments from (0, 0) to (1, 0) and to (2, 0):
    beyond the end, before the start, and above the middle. *)
Lemma line_distance_clamps_witness :
  line_distance (2, 0) ((0, 0), (1, 0)) = euclid (1, 0) (2, 0)
  /\ line_distance (-3, 4) ((0, 0), (1, 0)) = euclid (0, 0) (-3, 4)
  /\ line_distance (1, 5) ((0, 0), (2, 0)) = perpendicular (1, 5) ((0, 0), (2, 0)).
Proof.
  assert (H1 : ((0, 0) : point R) <> (1, 0)) by (intros H; inversion H; lra).
  assert (H2 : ((0, 0) : point R) <> (2, 0)) by (intros H; inversion H; lra).
  split; [| split].
  - apply (proj1 (line_distance_clamps (2, 0) _ _ H1)).
    unfold projection, Rsqr; simpl. lra.
  - apply (proj1 (proj2 (line_distance_clamps (-3, 4) _ _ H1))).
    unfold projection, Rsqr; simpl. lra.
  - apply (proj2 (proj2 (line_distance_clamps (1, 5) _ _ H2))).
    unfold projection, Rsqr; simpl. lra.
Defined.

(** ** C10 and C3 at concrete clues *)

(** The normal density is positive everywhere. *)
Lemma norm_density_pos (loc scale x : R) :
  0 < scale -> 0 < Rpdf (scs_norm loc scale) x.
Proof.
  intros Hs. unfold Rpdf. apply Rdiv_lt_0_compat; [apply exp_pos |].
  apply Rmult_lt_0_compat; [| exact Hs].
  apply sqrt_lt_R0. pose proof PI_RGT_0. lra.
Qed.

(** The satellite of [main.py], asked first at the south-west and the
    north-east corner of the region and then twice more, at no coordinate
    and at one other coordinate.  The first call stores two densities,
    [prob] at the two corners, both positive; the later calls return those
    two. *)
Lemma get_pdf_returns_first_density_witness :
  exists (self' : Location R) (v_sw v_ne : R),
    Location_get_pdf (Satellite_init sat_coords 2.4)
      [SW_LAT; NE_LAT] [SW_LON; NE_LON] = Ok (self', [v_sw; v_ne])
    /\ prob (Satellite_init sat_coords 2.4) (SW_LAT, SW_LON) = Ok v_sw
    /\ prob (Satellite_init sat_coords 2.4) (NE_LAT, NE_LON) = Ok v_ne
    /\ 0 < v_sw /\ 0 < v_ne
    /\ pdf self' = Some [v_sw; v_ne]
    /\ get_pdf_calls self' [([], []); ([SW_LAT], [NE_LON])]
       = Ok (self', [[v_sw; v_ne]; [v_sw; v_ne]]).
Proof.
  eexists. eexists. eexists.
  split; [reflexivity |]. split; [reflexivity |]. split; [reflexivity |].
  split; [apply norm_density_pos; unfold dec; cbn; lra |].
  split; [apply norm_density_pos; unfold dec; cbn; lra |].
  match goal with
  | |- pdf ?s' = Some ?d /\ _ =>
      destruct (get_pdf_returns_first_density (Satellite_init sat_coords 2.4) s'
                  [SW_LAT; NE_LAT] [SW_LON; NE_LON] d
                  [([], []); ([SW_LAT], [NE_LON])] eq_refl)
        as (Hpdf & _ & _ & Hlater & _)
  end.
  split; [exact Hpdf | exact Hlater].
Defined.

(** C3, as stated, fails.  A river of one coordinate and a negative
    confidence range, a satellite of one coordinate and a confidence range
    of zero, and a gate of mode zero are all constructed: the river has no
    segment and a normal distribution of negative scale, and it is the
    later call of [distance] that raises for the river and the satellite;
    [prob] of the gate returns a value. *)
Lemma invalid_configuration_is_constructed :
  let c : point R := (52.5, 13.4) in
  let river := River_init [c] (-1) in
  let satellite := Satellite_init [c] 0 in
  let gate := BGate_init [c] 4.7 0 in
  own river = RiverAttrs []
  /\ distribution river = scs_norm 0 (-1 / dec 196 2)
  /\ distance river c = Raise ValueError
  /\ distribution satellite = scs_norm 0 (0 / dec 196 2)
  /\ distance satellite c = Raise ValueError
  /\ distribution gate = scs_lognorm (R_sqrt.sqrt (ln (exp 4.7 / 0))) (exp 4.7)
  /\ exists v, prob gate c = Ok v.
Proof.
  cbv zeta. repeat split. eexists. reflexivity.
Qed.

End ExactClues.

(** * Exact arithmetic: the satellite clue *)

Section ExactSatellite.

Local Open Scope R_scope.

(** ** The library routines at the angles of a quarter turn *)

Lemma Rmod_small (a b : R) : 0 <= a < b -> Rmod a b = a.
Proof.
  intros [Ha Hb]. unfold Rmod.
  assert (H : Int_part (a / b) = 0%Z).
  { symmetry. apply Int_part_spec. simpl.
    assert (0 <= a / b < 1).
    { split.
      - apply Rmult_le_pos; [lra |]. left. apply Rinv_0_lt_compat. lra.
      - apply Rmult_lt_reg_r with b; [lra |]. unfold Rdiv.
        rewrite Rmult_assoc, Rinv_l by lra. lra. }
    lra. }
  rewrite H. simpl. ring.
Qed.

Lemma radians_90 : np_radians (num := R) 90 = PI / 2.
Proof. unfold np_radians. cbn. field. Qed.

Lemma radians_0 : np_radians (num := R) 0 = 0.
Proof. unfold np_radians. cbn. ring. Qed.

Lemma degrees_PI2 : np_degrees (num := R) (PI / 2) = 90.
Proof. unfold np_degrees. cbn. field. apply PI_neq0. Qed.

Lemma degrees_0 : np_degrees (num := R) 0 = 0.
Proof. unfold np_degrees. cbn. ring. Qed.

Lemma bearing_north : bearing (num := R) (0, 0) (90, 0) = 0.
Proof.
  unfold bearing. cbn [fst snd nsub nmul exact np_sin np_cos np_arctan2 np_mod exact_lib nofZ].
  replace (0 - 0) with 0 by ring.
  rewrite radians_0, radians_90, sin_0, cos_0, sin_PI2, cos_PI2.
  match goal with
  | |- context [Ratan2 ?y ?x] => replace x with 1 by ring; replace y with 0 by ring
  end.
  unfold Ratan2. destruct (Rlt_dec 0 1); [| lra].
  replace (0 / 1) with 0 by field. rewrite atan_0, degrees_0.
  apply Rmod_small. lra.
Qed.

Lemma bearing_east : bearing (num := R) (0, 0) (0, 90) = 90.
Proof.
  unfold bearing. cbn [fst snd nsub nmul exact np_sin np_cos np_arctan2 np_mod exact_lib nofZ].
  replace (90 - 0) with 90 by ring.
  rewrite radians_0, radians_90, sin_0, cos_0, sin_PI2, cos_PI2.
  match goal with
  | |- context [Ratan2 ?y ?x] => replace x with 0 by ring; replace y with 1 by ring
  end.
  unfold Ratan2. destruct (Rlt_dec 0 0); [lra |].
  destruct (Rlt_dec 0 1); [| lra].
  rewrite degrees_PI2. apply Rmod_small. lra.
Qed.

Lemma quarter_meridian : vincenty_km (num := R) (0, 0) (90, 0) = 6371 * (PI / 2).
Proof.
  unfold vincenty_km. cbn [fst snd nsub nmul nadd ndiv nsqrt exact np_sin np_cos np_arcsin exact_lib nofZ sq].
  replace (0 - 0) with 0 by ring. replace (90 - 0) with 90 by ring.
  rewrite radians_0, radians_90.
  replace (PI / 2 / 2) with (PI / 4) by field.
  replace (0 / 2) with 0 by field.
  rewrite sin_PI4, sin_0, cos_0, cos_PI2.
  replace (1 / R_sqrt.sqrt 2 * (1 / R_sqrt.sqrt 2) + 1 * 0 * (0 * 0))
    with (Rsqr (/ R_sqrt.sqrt 2)) by (unfold Rsqr; field; apply sqrt2_neq_0).
  rewrite sqrt_Rsqr.
  - rewrite asin_inv_sqrt2. field.
  - left. apply Rinv_0_lt_compat. apply Rlt_sqrt2_0.
Qed.

(** ** C6: the cross-track distance keeps its sign *)

(** C6, as stated, fails.  For the track along the equator from (0, 0) to
    (0, 90) and the query point (90, 0), a quarter of a meridian north of
    it, [Satellite.distance] returns a negative number. *)
Lemma satellite_distance_is_negative_north_of_equator :
  exists v : R,
    distance (Satellite_init [(0, 0); (0, 90)] 2.4) (90, 0) = Ok v /\ v < 0.
Proof.
  eexists. split; [reflexivity |].
  rewrite quarter_meridian, bearing_north, bearing_east.
  cbn [fst snd nsub nmul nadd ndiv nsqrt exact np_sin np_cos np_arcsin exact_lib nofZ sq].
  replace (6371 * (PI / 2) / 6371) with (PI / 2) by field.
  replace (np_radians (0 - 90)) with (- (PI / 2)) by (unfold np_radians; cbn; field).
  rewrite sin_PI2, sin_neg, sin_PI2.
  replace (1 * - (1)) with (- (1)) by ring. rewrite asin_opp, asin_1.
  pose proof PI_RGT_0. lra.
Qed.

Lemma norm_density_even (scale x : R) :
  Rpdf (scs_norm 0 scale) (Rabs x) = Rpdf (scs_norm 0 scale) x.
Proof.
  unfold Rpdf. do 3 f_equal.
  replace ((Rabs x - 0) / scale) with (Rabs x / scale) by (unfold Rdiv; ring).
  replace ((x - 0) / scale) with (x / scale) by (unfold Rdiv; ring).
  unfold Rdiv. rewrite !Rsqr_mult. rewrite <- Rsqr_abs. reflexivity.
Qed.

(** C6, amended: for a satellite built on two coordinates and every query
    point, [Satellite.distance] returns the signed cross-track distance of
    spec 4.1, a number between minus and plus a quarter of the
    circumference that is negative on one side of the path; no absolute
    value is taken, and it is only the density computed from it that is
    the density at its absolute value. *)
Theorem Satellite_distance_is_signed_cross_track (s e p : point R) (ci_range : R) :
  distance (Satellite_init [s; e] ci_range) p = Ok (crossTrackDistance s e p)
  /\ - (6371 * (PI / 2)) <= crossTrackDistance s e p <= 6371 * (PI / 2)
  /\ prob (Satellite_init [s; e] ci_range) p =
     Ok (Rpdf (scs_norm 0 (ci_range / dec 196 2)) (Rabs (crossTrackDistance s e p))).
Proof.
  assert (Hd : distance (Satellite_init [s; e] ci_range) p
               = Ok (crossTrackDistance s e p)).
  { unfold distance, Satellite_init, Satellite_distance, crossTrackDistance.
    cbn [own coords nsub nmul ndiv exact np_sin np_arcsin exact_lib nofZ].
    f_equal. unfold np_radians. cbn [nmul ndiv nofZ exact np_pi exact_lib].
    rewrite Rmult_comm. do 4 f_equal. unfold Rdiv. ring. }
  split; [exact Hd |]. split.
  - unfold crossTrackDistance.
    match goal with |- context [asin ?x] => pose proof (asin_bound x) as Hb end.
    cbv zeta. lra.
  - unfold prob. rewrite Hd. cbn [rbind]. f_equal.
    cbn [distribution Satellite_init scs_pdf exact_lib nofZ exact].
    symmetry. apply norm_density_even.
Qed.

End ExactSatellite.

(** * Exact arithmetic: the grid engine over the real numbers *)

Section ExactGrid.

Local Open Scope R_scope.

(** ** Sums and normalization *)

Lemma fold_Rplus_acc (l : list R) (a : R) :
  fold_left Rplus l a = a + fold_left Rplus l 0.
Proof.
  revert a. induction l as [| x l IH]; intros a; simpl; [ring |].
  rewrite (IH (a + x)), (IH (0 + x)). ring.
Qed.

Lemma np_sum_cons (x : R) (l : list R) : np_sum (x :: l) = x + np_sum l.
Proof.
  unfold np_sum. cbn [fold_left nadd nofZ exact].
  rewrite fold_Rplus_acc. ring.
Qed.

Lemma np_sum_nil : np_sum (@nil R) = 0.
Proof. reflexivity. Qed.

Lemma np_sum_idiv (d : list R) (s : R) : np_sum (idiv d s) = np_sum d / s.
Proof.
  unfold idiv. induction d as [| x d IH]; cbn [map].
  - rewrite np_sum_nil. unfold Rdiv. ring.
  - rewrite !np_sum_cons, IH. cbn [ndiv exact]. unfold Rdiv. ring.
Qed.

Lemma np_sum_nonneg (d : list R) :
  (forall x, In x d -> 0 <= x) -> 0 <= np_sum d.
Proof.
  induction d as [| x d IH]; intros H.
  - rewrite np_sum_nil. lra.
  - rewrite np_sum_cons.
    assert (0 <= x) by (apply H; left; reflexivity).
    assert (0 <= np_sum d) by (apply IH; intros y Hy; apply H; right; exact Hy).
    lra.
Qed.

Lemma np_sum_ones (n : nat) : np_sum (np_ones (num := R) n) = INR n.
Proof.
  induction n as [| n IH].
  - reflexivity.
  - change (np_ones (S n)) with (1 :: np_ones (num := R) n).
    rewrite np_sum_cons, IH, S_INR. ring.
Qed.

(** The prior is uniform: every cell gets one over the number of cells. *)
Lemma prior_uniform (self : Mapper R) :
  prior self = repeat (1 / INR (length (latitudes self))) (length (latitudes self)).
Proof.
  unfold prior. rewrite np_sum_ones.
  generalize (INR (length (latitudes self))) as s.
  generalize (length (latitudes self)) as n.
  unfold idiv, np_ones. induction n as [| n IH]; intros s; simpl; [reflexivity |].
  rewrite IH. reflexivity.
Qed.

Lemma prior_nonneg (self : Mapper R) (x : R) : In x (prior self) -> 0 <= x.
Proof.
  rewrite prior_uniform. intros H. apply repeat_spec in H. subst x.
  destruct (length (latitudes self)) as [| n].
  - simpl. unfold Rdiv. rewrite Rinv_0. lra.
  - left. apply Rdiv_lt_0_compat; [lra |]. apply lt_0_INR. lia.
Qed.

Lemma imul_nonneg (d probs d' : list R) :
  imul d probs = Ok d' ->
  (forall x, In x d -> 0 <= x) -> (forall x, In x probs -> 0 <= x) ->
  forall x, In x d' -> 0 <= x.
Proof.
  unfold imul. intros H Hd Hp x Hx.
  destruct (Nat.eqb (length probs) (length d)).
  - inversion H; subst. apply in_map_iff in Hx.
    destruct Hx as ([a b] & <- & Hin). simpl.
    apply Rmult_le_pos.
    + apply Hd. eapply in_combine_l; eassumption.
    + apply Hp. eapply in_combine_r; eassumption.
  - destruct probs as [| p [| q probs0]]; inversion H; subst.
    apply in_map_iff in Hx. destruct Hx as (a & <- & Hin).
    apply Rmult_le_pos; [apply Hd; exact Hin | apply Hp; left; reflexivity].
Qed.

Lemma products_nonneg (self : Mapper R) (h : heap R) (objs : list ref) :
  forall d d' : list R,
  products self h objs d = Ok d' ->
  (forall x, In x d -> 0 <= x) ->
  (forall r dens, In r objs -> density_of self (h r) = Ok dens ->
                  forall x, In x dens -> 0 <= x) ->
  forall x, In x d' -> 0 <= x.
Proof.
  induction objs as [| obj objs IH]; intros d d' H Hd Hdens; simpl in H.
  - inversion H; subst. exact Hd.
  - destruct (density_of self (h obj)) as [p |] eqn:Hp; simpl in H; [| discriminate].
    destruct (imul d p) as [d1 |] eqn:Hmul; simpl in H; [| discriminate].
    apply (IH d1 d' H).
    + apply (imul_nonneg d p d1 Hmul Hd).
      apply (Hdens obj p); [left; reflexivity | exact Hp].
    + intros r dens Hin. apply Hdens. right; exact Hin.
Qed.

(** ** C1: the posterior is normalized *)

(** C1, amended: on the lattice of resolution [n], for every selection of
    clues whose densities are non-negative, if the loop returns masses
    whose total is not zero, then the posterior is a sequence of [n * n]
    non-negative reals that add up to one, in exact arithmetic; it is the
    uniform prior multiplied cell by cell by the density of each selected
    clue in turn, and divided once, at the end, by the total. *)
Theorem posterior_is_normalized (objs0 : list ref) (n : nat) (h : heap R)
  (objs : list ref) (d : list R) :
  products (Mapper_init objs0 n) h objs (prior (Mapper_init objs0 n)) = Ok d ->
  (forall r dens, In r objs -> density_of (Mapper_init objs0 n) (h r) = Ok dens ->
                  forall x, In x dens -> 0 <= x) ->
  np_sum d <> 0 ->
  prior (Mapper_init objs0 n) = repeat (1 / INR (n * n)) (n * n)
  /\ exists post,
       snd (get_distribution (Mapper_init objs0 n) objs h) = Ok post
       /\ post = idiv d (np_sum d)
       /\ length post = (n * n)%nat
       /\ (forall x, In x post -> 0 <= x)
       /\ np_sum post = 1.
Proof.
  intros Hd Hdens Hsum.
  set (self := Mapper_init objs0 n) in *.
  assert (Hlen : length (latitudes self) = (n * n)%nat)
    by apply (proj1 (length_lattice objs0 n)).
  split; [rewrite prior_uniform, Hlen; reflexivity |].
  assert (Hnn : forall x, In x d -> 0 <= x).
  { apply (products_nonneg self h objs _ d Hd); [apply prior_nonneg | exact Hdens]. }
  assert (Hpos : 0 < np_sum d).
  { pose proof (np_sum_nonneg d Hnn). lra. }
  exists (idiv d (np_sum d)). split; [| split; [reflexivity | split; [| split]]].
  - rewrite get_distribution_products, Hd. reflexivity.
  - rewrite length_idiv, (length_products self h objs _ _ Hd), length_prior.
    exact Hlen.
  - intros x Hx. apply in_map_iff in Hx. destruct Hx as (y & <- & Hy).
    cbn [ndiv exact]. apply Rmult_le_pos; [apply Hnn; exact Hy |].
    left. apply Rinv_0_lt_compat. exact Hpos.
  - rewrite np_sum_idiv. cbn [ndiv exact]. field. exact Hsum.
Qed.

Lemma vincenty_km_same (p : point R) : vincenty_km p p = 0.
Proof.
  unfold vincenty_km, np_radians, sq.
  cbn [nsub nmul nadd ndiv nsqrt exact np_sin np_cos np_arcsin np_pi exact_lib nofZ].
  replace ((fst p - fst p) * (PI / 180) / 2) with 0 by (unfold Rdiv; ring).
  replace ((snd p - snd p) * (PI / 180) / 2) with 0 by (unfold Rdiv; ring).
  rewrite sin_0.
  match goal with
  | |- context [R_sqrt.sqrt ?x] => replace x with 0 by ring
  end.
  rewrite sqrt_0, asin_0. ring.
Qed.

(** C1, as stated, fails.  In binary64: on the lattice of resolution 2
    select the one clue [narrow_satellite], whose density is 0.0 at each
    of the four cells; [get_distribution] returns a posterior of four
    entries whose sum is not within 1e-9 of one, whatever numeric library
    is linked.  In exact arithmetic: on the lattice of resolution 1 select
    a gate, freshly built, that stands on the one cell; its distance to
    the cell is 0, where the log-normal density is 0, so the total mass is
    zero and the posterior does not add up to one. *)
Lemma posterior_of_zero_mass_does_not_sum_to_one :
  ([0%nat] <> []
   /\ forall L : Lib float,
      exists post,
        snd (get_distribution (Mapper_init [0%nat] 2) [0%nat]
               (fun _ => narrow_satellite)) = Ok post
        /\ length post = 4%nat
        /\ sums_to_one post = false)
  /\ exists d post : list R,
       products (Mapper_init [0%nat] 1)
         (fun _ => BGate_init [(SW_LAT, SW_LON)] 4.7 3.877) [0%nat]
         (prior (Mapper_init [0%nat] 1)) = Ok d
       /\ np_sum d = 0
       /\ snd (get_distribution (Mapper_init [0%nat] 1) [0%nat]
                 (fun _ => BGate_init [(SW_LAT, SW_LON)] 4.7 3.877)) = Ok post
       /\ length post = 1%nat
       /\ np_sum post <> 1.
Proof.
  split.
  - split; [discriminate |].
    intros L. eexists. split; [vm_compute; reflexivity |].
    split; vm_compute; reflexivity.
  - assert (Hz : Rpdf (set_distribution 4.7 3.877)
                   (vincenty_km (SW_LAT, SW_LON) (SW_LAT, SW_LON)) = 0).
    { rewrite vincenty_km_same. unfold set_distribution, Rpdf.
      destruct (Rle_dec 0 0); [reflexivity | lra]. }
    set (v := Rpdf (set_distribution 4.7 3.877)
                (vincenty_km (SW_LAT, SW_LON) (SW_LAT, SW_LON))) in Hz.
    assert (Hsum : np_sum [1 / (0 + 1) * v] = 0).
    { rewrite np_sum_cons, np_sum_nil, Hz. unfold Rdiv. ring. }
    exists [1 / (0 + 1) * v], (idiv [1 / (0 + 1) * v] (np_sum [1 / (0 + 1) * v])).
    split; [reflexivity |]. split; [exact Hsum |].
    split; [reflexivity |]. split; [reflexivity |].
    rewrite np_sum_idiv, Hsum. cbn [ndiv exact].
    unfold Rdiv. rewrite Rmult_0_l. lra.
Qed.

(** ** C2: the order of the clues *)

Lemma mul2_swap (d a b : list R) :
  mul2 (mul2 d a) b = mul2 (mul2 d b) a.
Proof.
  unfold mul2. revert a b.
  induction d as [| x d IH]; intros a b; [reflexivity |].
  destruct a as [| y a], b as [| z b]; simpl; try reflexivity.
  rewrite IH. f_equal. ring.
Qed.

Lemma imul_swap (d pa pb : list R) :
  value (rbind (imul d pa) (fun d1 => imul d1 pb))
  = value (rbind (imul d pb) (fun d1 => imul d1 pa)).
Proof.
  rewrite (imul_broadcast d pa), (imul_broadcast d pb).
  destruct (broadcast (length d) pa) as [a |] eqn:Ha;
    destruct (broadcast (length d) pb) as [b |] eqn:Hb; cbn [rbind].
  - rewrite !imul_broadcast.
    rewrite !length_mul2
      by (eapply broadcast_length; eassumption).
    rewrite Ha, Hb, mul2_swap. reflexivity.
  - rewrite imul_broadcast, length_mul2 by (eapply broadcast_length; eassumption).
    rewrite Hb. reflexivity.
  - rewrite imul_broadcast, length_mul2 by (eapply broadcast_length; eassumption).
    rewrite Ha. reflexivity.
  - reflexivity.
Qed.

(** C2: in exact arithmetic, for any mapper, any store and any two clues,
    selecting them in one order or in the other gives the same posterior,
    and one selection raises exactly when the other does. *)
Theorem get_distribution_order_independent (self : Mapper R) (h : heap R)
  (a b : ref) :
  value (snd (get_distribution self [a; b] h))
  = value (snd (get_distribution self [b; a] h)).
Proof.
  rewrite !get_distribution_products.
  assert (H : value (products self h [a; b] (prior self))
              = value (products self h [b; a] (prior self))).
  { cbn [products].
    destruct (density_of self (h a)) as [pa | ea];
      destruct (density_of self (h b)) as [pb | eb]; cbn [rbind].
    - pose proof (imul_swap (prior self) pa pb) as Hs.
      destruct (imul (prior self) pa) as [d1 |];
        destruct (imul (prior self) pb) as [d2 |]; cbn [rbind] in *.
      + destruct (imul d1 pb), (imul d2 pa); simpl in *; congruence.
      + destruct (imul d1 pb); simpl in *; congruence.
      + destruct (imul d2 pa); simpl in *; congruence.
      + reflexivity.
    - destruct (imul (prior self) pa); reflexivity.
    - destruct (imul (prior self) pb); reflexivity.
    - reflexivity. }
  destruct (products self h [a; b] (prior self));
    destruct (products self h [b; a] (prior self));
    simpl in *; congruence.
Qed.

End ExactGrid.

(** * Exact arithmetic: indices and lattice coordinates *)

Section ExactAlignment.

Local Open Scope R_scope.

(** ** The maximum of a sequence *)

(** [argmax_from] keeps the index of an entry that is maximal among the
    entries seen so far and strictly above those before it. *)
Lemma argmax_from_spec (l : list R) :
  forall (pre : list R) (mp : R) (mi : nat),
  nth_error (pre ++ l) mi = Some mp ->
  (mi < length pre)%nat ->
  (forall x, In x pre -> x <= mp) ->
  (forall k x, (k < mi)%nat -> nth_error pre k = Some x -> x < mp) ->
  exists pj,
    nth_error (pre ++ l) (argmax_from mp mi (length pre) l) = Some pj
    /\ (forall x, In x (pre ++ l) -> x <= pj)
    /\ (forall k x, (k < argmax_from mp mi (length pre) l)%nat ->
                    nth_error (pre ++ l) k = Some x -> x < pj).
Proof.
  induction l as [| x l IH]; intros pre mp mi Hmi Hlt Hmax Hfirst.
  - simpl. rewrite app_nil_r in *. exists mp. split; [exact Hmi |].
    split; [exact Hmax |]. intros k y Hk. apply Hfirst. exact Hk.
  - cbn [argmax_from nisnan nleb exact].
    replace (pre ++ x :: l) with ((pre ++ [x]) ++ l) in *
      by (rewrite <- app_assoc; reflexivity).
    replace (S (length pre)) with (length (pre ++ [x]))
      by (rewrite length_app; simpl; lia).
    unfold Rleb. destruct (Rle_dec x mp) as [Hle | Hgt].
    + apply IH.
      * exact Hmi.
      * rewrite length_app; simpl; lia.
      * intros y Hy. apply in_app_or in Hy. destruct Hy as [Hy | [<- | []]];
          [apply Hmax; exact Hy | exact Hle].
      * intros k y Hk Hy. apply (Hfirst k y Hk).
        rewrite nth_error_app1 in Hy by lia. exact Hy.
    + apply Rnot_le_lt in Hgt. apply IH.
      * rewrite nth_error_app1 by (rewrite length_app; simpl; lia).
        rewrite nth_error_app2 by lia. rewrite Nat.sub_diag. reflexivity.
      * rewrite length_app; simpl; lia.
      * intros y Hy. apply in_app_or in Hy. destruct Hy as [Hy | [<- | []]];
          [| lra]. specialize (Hmax y Hy). lra.
      * intros k y Hk Hy. rewrite nth_error_app1 in Hy by lia.
        assert (y <= mp) by (apply Hmax; eapply nth_error_In; eassumption).
        lra.
Qed.

Lemma np_argmax_spec (l : list R) :
  l <> [] ->
  exists j pj,
    np_argmax l = Ok j
    /\ nth_error l j = Some pj
    /\ (forall x, In x l -> x <= pj)
    /\ (forall k x, (k < j)%nat -> nth_error l k = Some x -> x < pj).
Proof.
  destruct l as [| x l]; [congruence |]. intros _.
  destruct (argmax_from_spec l [x] x 0) as (pj & Hj & Hmax & Hfirst).
  - reflexivity.
  - simpl; lia.
  - intros y [<- | []]. lra.
  - intros k y Hk. lia.
  - exists (argmax_from x 0 1 l), pj. split; [reflexivity |].
    split; [exact Hj |]. split; [exact Hmax | exact Hfirst].
Qed.

(** ** Cell by cell *)

Lemma nth_mul2 (d p : list R) (i : nat) :
  length p = length d -> nth i (mul2 d p) 0 = nth i d 0 * nth i p 0.
Proof.
  unfold mul2. revert p i. induction d as [| x d IH]; intros p i Hlen.
  - destruct p; [| discriminate]. destruct i; simpl; ring.
  - destruct p as [| y p]; [discriminate |]. destruct i as [| i]; simpl.
    + reflexivity.
    + apply IH. simpl in Hlen. lia.
Qed.

Lemma imul_same_length (d p : list R) :
  length p = length d -> imul d p = Ok (mul2 d p).
Proof.
  intros H. unfold imul. rewrite H, Nat.eqb_refl. reflexivity.
Qed.

(** When every selected clue has a density of as many entries as there
    are cells, the loop succeeds and the mass of each cell is the prior
    mass of that cell times the densities of the clues at that cell. *)
Lemma products_cell_mass (self : Mapper R) (h : heap R) (g : ref -> list R)
  (objs : list ref) :
  forall d0 : list R,
  (forall r, In r objs ->
             density_of self (h r) = Ok (g r) /\ length (g r) = length d0) ->
  exists d,
    products self h objs d0 = Ok d
    /\ forall i, nth i d 0 = cell_mass (nth i d0 0) (map g objs) i.
Proof.
  induction objs as [| obj objs IH]; intros d0 Hg.
  - exists d0. split; reflexivity.
  - destruct (Hg obj (or_introl eq_refl)) as [Hd Hlen].
    cbn [products]. rewrite Hd. cbn [rbind].
    rewrite (imul_same_length d0 (g obj) Hlen). cbn [rbind].
    destruct (IH (mul2 d0 (g obj))) as (d & Hrun & Hcell).
    + intros r Hr. destruct (Hg r (or_intror Hr)) as [Hdr Hlr].
      split; [exact Hdr |]. rewrite length_mul2 by exact Hlen. exact Hlr.
    + exists d. split; [exact Hrun |]. intros i. rewrite Hcell.
      cbn [map cell_mass fold_left]. rewrite nth_mul2 by exact Hlen.
      reflexivity.
Qed.

Lemma nth_error_combine {X Y : Type} (l : list X) (l' : list Y) (i : nat)
  (x : X) (y : Y) :
  nth_error l i = Some x -> nth_error l' i = Some y ->
  nth_error (combine l l') i = Some (x, y).
Proof.
  revert l' i. induction l as [| a l IH]; intros l' i Hx Hy.
  - destruct i; discriminate.
  - destruct l' as [| b l']; [destruct i; discriminate |].
    destruct i as [| i]; simpl in *.
    + inversion Hx; inversion Hy; reflexivity.
    + apply IH; assumption.
Qed.

Lemma nth_idiv (d : list R) (s : R) (i : nat) :
  nth i (idiv d s) 0 = nth i d 0 / s.
Proof.
  unfold idiv. revert i. induction d as [| x d IH]; intros i.
  - destruct i; simpl; unfold Rdiv; ring.
  - destruct i as [| i]; simpl; [reflexivity | apply IH].
Qed.

Lemma list_as_map_nth (d : list R) :
  d = map (fun j => nth j d 0) (seq 0 (length d)).
Proof.
  induction d as [| x d IH]; [reflexivity |].
  cbn [length seq map nth]. f_equal.
  rewrite <- seq_shift, map_map. cbn [nth]. exact IH.
Qed.

(** ** C9: index [i] and lattice coordinate [i] *)

(** C9, as stated, fails.  The gate of [main.py] is first selected on the
    lattice of resolution 1 and then on the lattice of resolution 2.  The
    second mapper has four cells, but the density sequence that [get_pdf]
    hands it has the single entry computed for the first lattice, so it
    has no entry for the cells 1, 2 and 3; [get_distribution] still
    returns a posterior of four entries. *)
Lemma stale_density_is_not_aligned :
  let h0 : heap R := fun _ => BGate_init bg_coords 4.7 3.877 in
  let first := Mapper_init [0%nat] 1 in
  let second := Mapper_init [0%nat] 2 in
  let h1 := fst (get_distribution first [0%nat] h0) in
  exists dens post,
    snd (get_pdf 0%nat (latitudes second) (longitudes second) h1) = Ok dens
    /\ length (latitudes second) = 4%nat
    /\ length dens = 1%nat
    /\ nth_error dens 1 = None
    /\ lattice_density first (h0 0%nat) = Ok dens
    /\ snd (get_distribution second [0%nat] h1) = Ok post
    /\ length post = 4%nat.
Proof.
  cbv zeta. eexists. eexists.
  split; [reflexivity |]. split; [reflexivity |]. split; [reflexivity |].
  split; [reflexivity |]. split; [reflexivity |]. split; reflexivity.
Qed.

(** C9, amended: on the lattice of resolution [n], when the cache of every
    selected clue is empty or was filled from this lattice and
    [get_distribution] returns, then (1) every selected clue is left with
    a density sequence of [n * n] entries whose entry [i] is [prob] at the
    lattice coordinate [i]; (2) the posterior has [n * n] entries, and its
    entry [i] is the prior mass of cell [i] times the entries [i] of those
    densities, over the sum of those products over all [n * n] cells;
    (3) [find_maximum] returns the lattice coordinate of the first cell of
    maximal posterior mass. *)
Theorem lattice_alignment (objs0 : list ref) (n : nat) (h h' : heap R)
  (objs : list ref) (post : list R) :
  (forall r, In r objs -> cache_fits (Mapper_init objs0 n) (h r)) ->
  get_distribution (Mapper_init objs0 n) objs h = (h', Ok post) ->
  (forall r, In r objs ->
     length (cached (h' r)) = (n * n)%nat
     /\ forall i lat lon,
          nth_error (latitudes (Mapper_init objs0 n)) i = Some lat ->
          nth_error (longitudes (Mapper_init objs0 n)) i = Some lon ->
          exists v, nth_error (cached (h' r)) i = Some v
                    /\ prob (h' r) (lat, lon) = Ok v)
  /\ length post = (n * n)%nat
  /\ (forall i,
        nth i post 0 =
        cell_mass (nth i (prior (Mapper_init objs0 n)) 0)
          (map (fun r => cached (h' r)) objs) i
        / np_sum (map (fun j =>
                         cell_mass (nth j (prior (Mapper_init objs0 n)) 0)
                           (map (fun r => cached (h' r)) objs) j)
                    (seq 0 (n * n))))
  /\ (post <> [] ->
      exists j lat lon pj,
        find_maximum (Mapper_init objs0 n) post = Ok (lat, lon)
        /\ nth_error (latitudes (Mapper_init objs0 n)) j = Some lat
        /\ nth_error (longitudes (Mapper_init objs0 n)) j = Some lon
        /\ nth_error post j = Some pj
        /\ (forall x, In x post -> x <= pj)
        /\ (forall k x, (k < j)%nat -> nth_error post k = Some x -> x < pj)).
Proof.
  intros Hfit Hrun.
  set (self := Mapper_init objs0 n) in *.
  destruct (length_lattice (num := R) objs0 n) as [Hlat Hlon].
  fold self in Hlat, Hlon.
  (* the run, read through [products] *)
  unfold get_distribution, bind in Hrun.
  destruct (for_objs_products self objs (prior self) h) as (h1 & Hloop & Hset & Hall).
  rewrite Hloop in Hrun.
  destruct (products self h objs (prior self)) as [d |] eqn:Hd;
    [| discriminate].
  unfold ret in Hrun. inversion Hrun; subst h1 post. clear Hrun.
  specialize (Hall d eq_refl).
  (* every selected clue holds its density over this lattice *)
  assert (Hdens : forall r, In r objs ->
            pdf (h' r) = Some (cached (h' r))
            /\ density_of self (h r) = Ok (cached (h' r))
            /\ lattice_density self (h r) = Ok (cached (h' r))).
  { intros r Hr. destruct (Hall r Hr) as (p & Hp & Hdp).
    unfold cached. rewrite Hp. split; [reflexivity |]. split; [exact Hdp |].
    specialize (Hfit r Hr). unfold cache_fits in Hfit. unfold density_of in Hdp.
    destruct (pdf (h r)) as [c |]; [| exact Hdp].
    inversion Hdp; subst. exact Hfit. }
  assert (Hlens : forall r, In r objs -> length (cached (h' r)) = (n * n)%nat).
  { intros r Hr. destruct (Hdens r Hr) as (_ & _ & Hl).
    apply length_mapM in Hl. rewrite Hl.
    pose proof (length_combine (latitudes self) (longitudes self)) as Hc.
    rewrite Hlat, Hlon in Hc. rewrite Nat.min_id in Hc. exact Hc. }
  assert (Hlend : length d = (n * n)%nat).
  { rewrite (length_products self h objs _ _ Hd), length_prior. exact Hlat. }
  split; [| split; [| split]].
  - intros r Hr. split; [apply Hlens; exact Hr |].
    intros i lat lon Hi Hj. destruct (Hdens r Hr) as (_ & _ & Hl).
    destruct (nth_error_mapM _ _ _ Hl i (lat, lon)) as (v & Hv & Hprob).
    + apply nth_error_combine; assumption.
    + exists v. split; [exact Hv |].
      rewrite (settled_prob self (h r) (h' r)); [exact Hprob | apply Hset].
  - rewrite length_idiv. exact Hlend.
  - intros i. rewrite nth_idiv.
    destruct (products_cell_mass self h (fun r => cached (h' r)) objs (prior self))
      as (d2 & Hd2 & Hcell).
    + intros r Hr. destruct (Hdens r Hr) as (_ & Hdp & _).
      split; [exact Hdp |]. rewrite length_prior, Hlat. apply Hlens; exact Hr.
    + rewrite Hd in Hd2. inversion Hd2; subst d2. rewrite Hcell.
      f_equal. rewrite (list_as_map_nth d) at 1. rewrite Hlend.
      f_equal. apply map_ext. intros j. apply Hcell.
  - intros Hne.
    destruct (np_argmax_spec (idiv d (np_sum d)) Hne)
      as (j & pj & Harg & Hj & Hmax & Hfirst).
    assert (Hjlt : (j < n * n)%nat).
    { rewrite <- Hlend, <- (length_idiv d (np_sum d)).
      apply nth_error_Some. rewrite Hj. discriminate. }
    destruct (nth_error (latitudes self) j) as [lat |] eqn:Elat;
      [| apply nth_error_None in Elat; lia].
    destruct (nth_error (longitudes self) j) as [lon |] eqn:Elon;
      [| apply nth_error_None in Elon; lia].
    exists j, lat, lon, pj. split.
    + unfold find_maximum, index. rewrite Harg. cbn [rbind].
      rewrite Elat. cbn [rbind]. rewrite Elon. reflexivity.
    + repeat split; try assumption; reflexivity.
Qed.

End ExactAlignment.

(** * The distance to the gate, with the library's routine *)

Section ExactGate.

Local Open Scope R_scope.






(** ** Two points on the equator *)







(** ** C7: the distance to the gate *)




End ExactGate.

(** * More of the code, over any arithmetic and any numeric library *)

Section MoreGeneric.

Context {num : Type} {A : Arith num} {L : Lib num}.

(** ** [River.make_linear] *)

Lemma nth_error_removelast {X : Type} (l : list X) (k : nat) :
  S k < length l -> nth_error (removelast l) k = nth_error l k.
Proof.
  intros H. rewrite removelast_firstn_len, nth_error_firstn.
  replace (k <? Nat.pred (length l)) with true; [reflexivity |].
  symmetry. apply Nat.ltb_lt. lia.
Qed.

Lemma nth_error_tl {X : Type} (l : list X) (k : nat) :
  nth_error (tl l) k = nth_error l (S k).
Proof. destruct l; [destruct k |]; reflexivity. Qed.

Lemma pair_nth_error {X Y : Type} (l : list X) (l' : list Y) (i : nat)
  (x : X) (y : Y) :
  nth_error l i = Some x -> nth_error l' i = Some y ->
  nth_error (combine l l') i = Some (x, y).
Proof.
  revert l' i. induction l as [| a l IH]; intros l' i Hx Hy.
  - destruct i; discriminate.
  - destruct l' as [| b l']; [destruct i; discriminate |].
    destruct i as [| i]; simpl in *.
    + inversion Hx; inversion Hy; reflexivity.
    + apply IH; assumption.
Qed.

Lemma nth_error_make_linear (cs : list (point num)) (k : nat) (a b : point num) :
  nth_error cs k = Some a -> nth_error cs (S k) = Some b ->
  nth_error (make_linear cs) k
  = Some (convert_xy (fst a) (snd a), convert_xy (fst b) (snd b)).
Proof.
  intros Ha Hb. unfold make_linear. cbv zeta.
  assert (Hk : S k < length cs) by (apply nth_error_Some; rewrite Hb; discriminate).
  unfold point in *.
  apply pair_nth_error.
  - rewrite nth_error_removelast by (rewrite length_map; exact Hk).
    rewrite nth_error_map, Ha. reflexivity.
  - rewrite nth_error_tl, nth_error_map, Hb. reflexivity.
Qed.

(** X1: a river of [k] coordinates has [k - 1] segments, chained in the
    order of the coordinates: segment [i] runs from the planar image of
    coordinate [i] to the planar image of coordinate [i + 1], so each
    segment starts where the one before it ends. *)
Theorem make_linear_chains (cs : list (point num)) :
  length (make_linear cs) = Nat.pred (length cs)
  /\ forall i a b,
       nth_error cs i = Some a -> nth_error cs (S i) = Some b ->
       nth_error (make_linear cs) i
       = Some (convert_xy (fst a) (snd a), convert_xy (fst b) (snd b)).
Proof.
  split; [apply length_make_linear | apply nth_error_make_linear].
Qed.

(** ** The layout of the lattice *)

Lemma nth_error_tile {X Y : Type} (x : list X) (y : list Y) (i j : nat) :
  i < length x -> j < length y ->
  nth_error (flat_map (fun _ => x) y) (j * length x + i) = nth_error x i.
Proof.
  intros Hi. revert j. induction y as [| b y IH]; intros j Hj; simpl in Hj.
  - lia.
  - cbn [flat_map]. destruct j as [| j].
    + simpl. apply nth_error_app1. exact Hi.
    + rewrite nth_error_app2 by (simpl; lia).
      replace (S j * length x + i - length x) with (j * length x + i)
        by (simpl; lia).
      apply IH. lia.
Qed.

Lemma nth_error_stretch {X Y : Type} (x : list X) (y : list Y) (i j : nat) :
  i < length x -> j < length y ->
  nth_error (flat_map (fun yi => map (fun _ => yi) x) y) (j * length x + i)
  = nth_error y j.
Proof.
  intros Hi. revert j. induction y as [| b y IH]; intros j Hj; simpl in Hj.
  - lia.
  - cbn [flat_map]. destruct j as [| j].
    + simpl. rewrite nth_error_app1 by (rewrite length_map; exact Hi).
      rewrite nth_error_map.
      destruct (nth_error x i) eqn:E; [reflexivity |].
      apply nth_error_None in E. lia.
    + rewrite nth_error_app2 by (rewrite length_map; simpl; lia).
      rewrite length_map.
      replace (S j * length x + i - length x) with (j * length x + i)
        by (simpl; lia).
      apply IH. lia.
Qed.

Lemma np_linspace_last (start stop : num) (n : nat) :
  2 <= n -> nth_error (np_linspace start stop n) (n - 1) = Some stop.
Proof.
  intros Hn. destruct n as [| [| m]]; try lia.
  cbn [np_linspace]. rewrite nth_error_app2 by (rewrite length_map, length_seq; lia).
  rewrite length_map, length_seq.
  replace (S (S m) - 1 - S m) with 0 by lia. reflexivity.
Qed.

(** X2: on the lattice of resolution [n] the latitudes run fastest: cell
    [j * n + i] has the latitude of step [i] and the longitude of step
    [j].  For [n] at least 2 the last cell is exactly the north-east
    corner of the region, in any arithmetic. *)
Theorem mesh_grid_layout (objs : list ref) (n : nat) :
  (forall i j, i < n -> j < n ->
     nth_error (latitudes (Mapper_init objs n)) (j * n + i)
     = nth_error (np_linspace SW_LAT NE_LAT n) i
     /\ nth_error (longitudes (Mapper_init objs n)) (j * n + i)
        = nth_error (np_linspace SW_LON NE_LON n) j)
  /\ (2 <= n ->
      nth_error (latitudes (Mapper_init objs n)) (n * n - 1) = Some NE_LAT
      /\ nth_error (longitudes (Mapper_init objs n)) (n * n - 1) = Some NE_LON).
Proof.
  assert (Hcell : forall i j, i < n -> j < n ->
     nth_error (latitudes (Mapper_init objs n)) (j * n + i)
     = nth_error (np_linspace SW_LAT NE_LAT n) i
     /\ nth_error (longitudes (Mapper_init objs n)) (j * n + i)
        = nth_error (np_linspace SW_LON NE_LON n) j).
  { intros i j Hi Hj.
    unfold Mapper_init, generate_mesh_grid. cbn [latitudes longitudes].
    pose proof (length_np_linspace SW_LAT NE_LAT n) as Hx.
    pose proof (length_np_linspace SW_LON NE_LON n) as Hy.
    replace (j * n + i)
      with (j * length (np_linspace SW_LAT NE_LAT n) + i)
      by (rewrite Hx; reflexivity).
    split.
    - apply nth_error_tile; lia.
    - apply nth_error_stretch; lia. }
  split; [exact Hcell |].
  intros Hn. destruct (Hcell (n - 1) (n - 1)) as [Hlat Hlon]; try lia.
  replace ((n - 1) * n + (n - 1)) with (n * n - 1) in * by nia.
  rewrite Hlat, Hlon. split; apply np_linspace_last; exact Hn.
Qed.

(** ** What [get_distribution] does to the store *)

Lemma for_objs_frame (self : Mapper num) (objs : list ref) (r : ref) :
  ~ In r objs ->
  forall (d : list num) (h : heap num), fst (for_objs self objs d h) r = h r.
Proof.
  induction objs as [| obj objs IH]; intros Hr d h; [reflexivity |].
  cbn [for_objs]. unfold bind at 1. unfold get_pdf.
  destruct (Location_get_pdf (h obj) (latitudes self) (longitudes self))
    as [[self' p] |]; [| reflexivity].
  unfold bind at 1, lift. destruct (imul d p) as [d1 |].
  - rewrite IH by (intros Hin; apply Hr; right; exact Hin).
    unfold upd. destruct (Nat.eqb r obj) eqn:E; [| reflexivity].
    apply Nat.eqb_eq in E. subst. exfalso. apply Hr. left; reflexivity.
  - simpl. unfold upd. destruct (Nat.eqb r obj) eqn:E; [| reflexivity].
    apply Nat.eqb_eq in E. subst. exfalso. apply Hr. left; reflexivity.
Qed.

Lemma fst_get_distribution (self : Mapper num) (objs : list ref) (h : heap num) :
  fst (get_distribution self objs h) = fst (for_objs self objs (prior self) h).
Proof.
  unfold get_distribution, bind.
  destruct (for_objs self objs (prior self) h) as [h' [d | e]]; reflexivity.
Qed.

Lemma get_distribution_settles (self : Mapper num) (objs : list ref)
  (h : heap num) (r : ref) :
  settled self (h r) (fst (get_distribution self objs h) r).
Proof.
  rewrite fst_get_distribution.
  destruct (for_objs_products self objs (prior self) h) as (h' & Hrun & Hset & _).
  rewrite Hrun. apply Hset.
Qed.

(** X3: whether it returns or raises, [get_distribution] writes nothing
    but caches.  A clue that is not selected is left as it is; so is a
    clue that already has a cached density; any other clue is either left
    as it is or gets the attribute [pdf], set to its density over the
    lattice of this mapper, with its coordinates, name, distribution and
    other attributes unchanged. *)
Theorem get_distribution_only_fills_caches (self : Mapper num)
  (objs : list ref) (h : heap num) (r : ref) :
  (~ In r objs -> fst (get_distribution self objs h) r = h r)
  /\ (pdf (h r) <> None -> fst (get_distribution self objs h) r = h r)
  /\ (fst (get_distribution self objs h) r = h r
      \/ exists p, lattice_density self (h r) = Ok p
                   /\ fst (get_distribution self objs h) r = set_pdf (h r) p).
Proof.
  pose proof (get_distribution_settles self objs h r) as Hs.
  split; [| split].
  - intros Hr. rewrite fst_get_distribution. apply for_objs_frame. exact Hr.
  - intros Hc. destruct Hs as [-> | (Hn & _)]; [reflexivity | contradiction].
  - destruct Hs as [-> | (_ & p & Hp & ->)]; [left; reflexivity |].
    right. exists p. split; [exact Hp | reflexivity].
Qed.

(** X4: a mapper gives the same answer however often it has run before.
    After [get_distribution] on any selection, returned or raised,
    [get_distribution] of the same mapper on any selection returns what
    it would have returned on the store before. *)
Theorem get_distribution_is_repeatable (self : Mapper num)
  (before objs : list ref) (h : heap num) :
  snd (get_distribution self objs (fst (get_distribution self before h)))
  = snd (get_distribution self objs h).
Proof.
  rewrite !get_distribution_products.
  rewrite (products_ext self h (fst (get_distribution self before h))).
  - reflexivity.
  - intros r. apply settled_density, get_distribution_settles.
Qed.

(** ** A cache of another size *)

Lemma products_bad_length (self : Mapper num) (h : heap num) (obj : ref)
  (c : list num) (objs : list ref) :
  density_of self (h obj) = Ok c ->
  In obj objs ->
  forall d : list num,
  length c <> length d -> length c <> 1 ->
  value (products self h objs d) = None.
Proof.
  intros Hc. induction objs as [| o objs IH]; intros Hin d Hlen H1; [destruct Hin |].
  cbn [products]. destruct (Nat.eq_dec o obj) as [-> | Hne].
  - rewrite Hc. cbn [rbind]. unfold imul.
    destruct (Nat.eqb (length c) (length d)) eqn:E;
      [apply Nat.eqb_eq in E; contradiction |].
    destruct c as [| x [| y c']]; simpl in *; try reflexivity. lia.
  - destruct Hin as [-> | Hin]; [contradiction |].
    destruct (density_of self (h o)) as [p |]; [| reflexivity]. cbn [rbind].
    destruct (imul d p) as [d1 |] eqn:Hmul; [| reflexivity]. cbn [rbind].
    apply IH; [exact Hin | | exact H1].
    rewrite (length_imul d p d1 Hmul). exact Hlen.
Qed.

(** X5: a selected clue that carries a cached density whose length is
    neither the number of lattice cells nor one makes [get_distribution]
    raise, wherever the clue stands in the selection. *)
Theorem cache_of_other_size_raises (self : Mapper num) (h : heap num)
  (obj : ref) (c : list num) (objs : list ref) :
  pdf (h obj) = Some c ->
  In obj objs ->
  length c <> length (latitudes self) ->
  length c <> 1 ->
  value (snd (get_distribution self objs h)) = None.
Proof.
  intros Hc Hin Hlen H1. rewrite get_distribution_products.
  assert (H : value (products self h objs (prior self)) = None).
  { apply (products_bad_length self h obj c objs).
    - unfold density_of. rewrite Hc. reflexivity.
    - exact Hin.
    - rewrite length_prior. exact Hlen.
    - exact H1. }
  destruct (products self h objs (prior self)); [discriminate | reflexivity].
Qed.

End MoreGeneric.

(** * Drawing the map and reading the river file *)

Section RenderingFacts.

Context {num : Type} {A : Arith num} {L : Lib num}.

(** ** [a.reshape((256, 256))] *)

Lemma length_rows (k width : nat) (a : list num) : length (rows k width a) = k.
Proof.
  revert a. induction k as [| k IH]; intros a; simpl; [reflexivity |].
  rewrite IH. reflexivity.
Qed.

Lemma concat_rows (k width : nat) (a : list num) :
  length a = k * width -> concat (rows k width a) = a.
Proof.
  revert a. induction k as [| k IH]; intros a Hlen; cbn [rows concat].
  - destruct a; [reflexivity | discriminate].
  - rewrite IH; [apply firstn_skipn |].
    rewrite length_skipn, Hlen. simpl. lia.
Qed.

Lemma width_rows (k width : nat) (a : list num) :
  length a = k * width ->
  Forall (fun row => length row = width) (rows k width a).
Proof.
  revert a. induction k as [| k IH]; intros a Hlen; cbn [rows]; constructor.
  - rewrite length_firstn, Hlen. simpl. lia.
  - apply IH. rewrite length_skipn, Hlen. simpl. lia.
Qed.

Lemma reshape_256_ok (a : list num) :
  length a = 256 * 256 -> reshape_256 a = Ok (rows 256 256 a).
Proof.
  intros H. unfold reshape_256. rewrite H, Nat.eqb_refl. reflexivity.
Qed.

Lemma reshape_256_raises (a : list num) :
  length a <> 256 * 256 -> reshape_256 a = Raise ValueError.
Proof.
  intros H. unfold reshape_256.
  destruct (Nat.eqb (length a) (256 * 256)) eqn:E; [| reflexivity].
  apply Nat.eqb_eq in E. contradiction.
Qed.

Lemma square_256 (n : nat) : n * n = 256 * 256 -> n = 256.
Proof. intros H. nia. Qed.

(** ** [Mapper.get_color_map] and the loop that plots the paths *)

Lemma mapM_map {X Y : Type} (f : X -> result Y) (g : X -> Y) (l : list X) :
  (forall x, In x l -> f x = Ok (g x)) -> mapM f l = Ok (map g l).
Proof.
  induction l as [| x l IH]; intros H; cbn [mapM map]; [reflexivity |].
  rewrite (H x (or_introl eq_refl)), IH; [reflexivity |].
  intros y Hy. apply H. right; exact Hy.
Qed.

Lemma mapM_returns {X Y : Type} (f : X -> result Y) (l : list X) :
  (forall x, In x l -> exists y, f x = Ok y) -> exists ys, mapM f l = Ok ys.
Proof.
  induction l as [| x l IH]; intros H; cbn [mapM].
  - exists []. reflexivity.
  - destruct (H x (or_introl eq_refl)) as [y Hy]. rewrite Hy.
    destruct IH as [ys Hys]; [intros z Hz; apply H; right; exact Hz |].
    rewrite Hys. exists (y :: ys). reflexivity.
Qed.

Lemma in_combine_seq {X : Type} (l : list X) (s i : nat) (x : X) :
  In (i, x) (combine (seq s (length l)) l) ->
  s <= i /\ nth_error l (i - s) = Some x.
Proof.
  revert s. induction l as [| y l IH]; intros s Hin; cbn in Hin; [contradiction |].
  destruct Hin as [E | Hin].
  - inversion E; subst. split; [lia |]. rewrite Nat.sub_diag. reflexivity.
  - destruct (IH (S s) Hin) as [Hle Hnth]. split; [lia |].
    replace (i - s) with (S (i - S s)) by lia. exact Hnth.
Qed.

(** When the contour set has a level, and every colour formats,
    [get_color_map] returns one colour for each row that [to_rgba] gives
    for the levels divided by their maximum: the row's red, green and
    blue, each times 255, formatted. *)
Lemma get_color_map_returns (plt : Pyplot num) (levels : list num) (m : num) :
  np_max levels = Ok m ->
  (forall r g b a, In (r, g, b, a) (sm_to_rgba plt (idiv levels m)) ->
     exists c, format_rgb plt (nofZ 255 * r)%num (nofZ 255 * g)%num (nofZ 255 * b)%num
               = Ok c) ->
  exists color_map,
    get_color_map plt levels = Ok color_map
    /\ length color_map = length (sm_to_rgba plt (idiv levels m))
    /\ forall j r g b a,
         nth_error (sm_to_rgba plt (idiv levels m)) j = Some (r, g, b, a) ->
         exists c, nth_error color_map j = Some c
                   /\ format_rgb plt (nofZ 255 * r)%num (nofZ 255 * g)%num
                        (nofZ 255 * b)%num = Ok c.
Proof.
  intros Hm Hfmt. unfold get_color_map. rewrite Hm. cbn [rbind]. cbv zeta.
  set (rows := sm_to_rgba plt (idiv levels m)) in *.
  set (scale := fun rgba : num * num * num * num =>
                  let '(r, g, b, _) := rgba in
                  (nofZ 255 * r, nofZ 255 * g, nofZ 255 * b)%num).
  set (fmt := fun rgb : num * num * num =>
                let '(r, g, b) := rgb in format_rgb plt r g b).
  destruct (mapM_returns fmt (map scale rows)) as [color_map Hcm].
  - intros rgb Hin. apply in_map_iff in Hin.
    destruct Hin as ([[[r g] b] a] & <- & Hrow). apply (Hfmt r g b a Hrow).
  - exists color_map. split; [exact Hcm |]. split.
    + rewrite (length_mapM _ _ _ Hcm). apply length_map.
    + intros j r g b a Hj.
      destruct (nth_error_mapM _ _ _ Hcm j (scale (r, g, b, a))) as (c & Hc & Hf).
      * rewrite nth_error_map, Hj. reflexivity.
      * exists c. split; [exact Hc | exact Hf].
Qed.

(** When there is a colour for every level and every path has a vertex,
    the loop plots every path of every level, level after level and path
    after path, each in the colour of its level. *)
Lemma plot_paths_returns (color_map : list string)
  (collections : list (list (list (point num)))) :
  length collections <= length color_map ->
  (forall level path, In level collections -> In path level -> path <> []) ->
  plot_paths color_map collections
  = Ok (concat (map (fun il =>
                       map (fun path => plot (map fst path) (map snd path)
                                          (nth (fst il) color_map EmptyString))
                         (snd il))
                  (combine (seq 0 (length collections)) collections))).
Proof.
  intros Hlen Hpaths. unfold plot_paths.
  match goal with
  | |- rbind (mapM ?f ?l) _ = Ok (concat (map ?g _)) =>
      assert (Hcalls : mapM f l = Ok (map g l))
  end.
  2:{ rewrite Hcalls. reflexivity. }
  apply mapM_map.
  intros [i level] Hin. cbn [fst snd].
  destruct (in_combine_seq collections 0 i level Hin) as [_ Hnth].
  rewrite Nat.sub_0_r in Hnth.
  assert (Hi : i < length color_map).
  { assert (i < length collections)
      by (apply nth_error_Some; rewrite Hnth; discriminate). lia. }
  apply mapM_map. intros path Hpath. unfold plot_path.
  destruct (nth_error color_map i) as [c |] eqn:Ec;
    [| apply nth_error_None in Ec; lia].
  rewrite (nth_error_nth _ _ _ Ec).
  destruct path as [| v path]; [| reflexivity].
  exfalso. apply (Hpaths level [] (nth_error_In _ _ Hnth) Hpath). reflexivity.
Qed.

(** ** [Mapper.generate_map] *)

(** X6: the resolution is an argument of [Mapper], but contour lines can
    only be drawn at resolution 256.  For every other resolution
    [generate_map] with [plot_type='lines'] raises, whatever clues are
    selected and whether or not the maximum is marked; no map file is
    written. *)
Theorem generate_map_lines_needs_256
  (choice : list num -> nat -> result (list nat)) (plt : Pyplot num)
  (objs0 : list ref) (n : nat)
  (objs : option (list ref)) (max_marker : bool) (heatmap_size threshold : nat)
  (h : heap num) :
  n <> 256 ->
  value (snd (generate_map choice plt (Mapper_init objs0 n) objs "lines"
                max_marker heatmap_size threshold h)) = None.
Proof.
  intros Hn. unfold generate_map. cbv zeta.
  unfold bind at 1.
  match goal with
  | |- context [get_distribution ?M ?s h] =>
      destruct (get_distribution M s h) as [h1 [post | e]]; [| reflexivity]
  end.
  unfold bind at 1, lift.
  destruct (if max_marker then _ else _) as [marker | e]; [| reflexivity].
  unfold bind, lift, overlay.
  replace (String.eqb "lines" "lines") with true by reflexivity.
  rewrite reshape_256_raises; [reflexivity |].
  rewrite (proj1 (length_lattice objs0 n)).
  intros H. apply Hn, square_256, H.
Qed.

Lemma argmax_from_bound (l : list num) :
  forall (mp : num) (mi i : nat),
  mi < i -> argmax_from mp mi i l < i + length l.
Proof.
  induction l as [| x l IH]; intros mp mi i Hmi; cbn [argmax_from length].
  - lia.
  - destruct (nisnan mp); [lia |].
    destruct (nleb x mp).
    + specialize (IH mp mi (S i)). lia.
    + specialize (IH x i (S i)). lia.
Qed.

Lemma np_argmax_bound (l : list num) (j : nat) :
  np_argmax l = Ok j -> j < length l.
Proof.
  destruct l as [| x l]; [discriminate |]. unfold np_argmax.
  intros H. inversion H. pose proof (argmax_from_bound l x 0 1). simpl. lia.
Qed.

(** In any arithmetic [find_maximum] returns a lattice coordinate whenever
    the distribution is not empty and not longer than the lattice. *)
Lemma find_maximum_returns (self : Mapper num) (post : list num) :
  post <> [] ->
  length post <= length (latitudes self) ->
  length post <= length (longitudes self) ->
  exists j lat lon,
    find_maximum self post = Ok (lat, lon)
    /\ nth_error (latitudes self) j = Some lat
    /\ nth_error (longitudes self) j = Some lon
    /\ np_argmax post = Ok j.
Proof.
  intros Hne Hlat Hlon.
  destruct (np_argmax post) as [j | e] eqn:Harg;
    [| destruct post; [congruence | discriminate]].
  pose proof (np_argmax_bound post j Harg) as Hj.
  destruct (nth_error (latitudes self) j) as [lat |] eqn:Elat;
    [| apply nth_error_None in Elat; lia].
  destruct (nth_error (longitudes self) j) as [lon |] eqn:Elon;
    [| apply nth_error_None in Elon; lia].
  exists j, lat, lon. unfold find_maximum, index. rewrite Harg. cbn [rbind].
  rewrite Elat. cbn [rbind]. rewrite Elon.
  repeat split; reflexivity.
Qed.

(** X7: at resolution 256, suppose [get_distribution] returns on the
    selection ([self.objects] when none is given), [plt.contour] returns a
    contour set that has a level, every colour of [get_color_map] formats,
    [to_rgba] gives a row for every entry of [C.collections], and every
    path has a vertex.  Then [generate_map] with [plot_type='lines']
    returns and leaves the store as [get_distribution] left it.  It
    creates the plotter; marks the lattice coordinate of the maximum when
    asked to; hands [plt.contour] three grids of 256 rows of 256 entries
    that are the latitudes, the longitudes and the posterior in lattice
    order; plots every path of every level, in order, in the colour that
    [get_color_map] gives the level: the red, green and blue that
    [to_rgba] gives for the level divided by the largest level, each
    times 255, formatted; draws the region; and writes the file named
    after the clue when exactly one is selected and [final_map]
    otherwise. *)
Theorem generate_map_draws_the_lattice
  (choice : list num -> nat -> result (list nat)) (plt : Pyplot num)
  (objs0 : list ref)
  (objs : option (list ref)) (max_marker : bool) (heatmap_size threshold : nat)
  (h h' : heap num) (post : list num)
  (levels : list num) (collections : list (list (list (point num))))
  (m : num) :
  let self := Mapper_init objs0 256 in
  let sel := match objs with
             | None | Some [] => objs0
             | Some sel => sel
             end in
  let X := rows 256 256 (latitudes self) in
  let Y := rows 256 256 (longitudes self) in
  let P := rows 256 256 post in
  get_distribution self sel h = (h', Ok post) ->
  plt_contour plt X Y P = Ok (levels, collections) ->
  np_max levels = Ok m ->
  (forall r g b a, In (r, g, b, a) (sm_to_rgba plt (idiv levels m)) ->
     exists c, format_rgb plt (nofZ 255 * r)%num (nofZ 255 * g)%num (nofZ 255 * b)%num
               = Ok c) ->
  length collections <= length (sm_to_rgba plt (idiv levels m)) ->
  (forall level path, In level collections -> In path level -> path <> []) ->
  exists marker color_map,
    generate_map choice plt self objs "lines" max_marker heatmap_size threshold h
    = (h', Ok (plotter (nadd SW_LAT NE_LAT / nofZ 2)%num
                 (nadd SW_LON NE_LON / nofZ 2)%num
               :: marker
               ++ (contour_lines X Y P
                   :: concat
                        (map (fun il =>
                                map (fun path =>
                                       plot (map fst path) (map snd path)
                                         (nth (fst il) color_map EmptyString))
                                  (snd il))
                           (combine (seq 0 (length collections)) collections)))
               ++ [polygon [SW_LAT; SW_LAT; NE_LAT; NE_LAT]
                     [SW_LON; NE_LON; NE_LON; SW_LON];
                   draw ("../maps/"
                         ++ match sel with
                            | [obj] => name (h' obj)
                            | _ => "final_map"
                            end ++ ".html")%string]))
    /\ (if max_marker
        then exists lat lon, find_maximum self post = Ok (lat, lon)
                             /\ marker = [scatter [lat] [lon]]
        else marker = [])
    /\ concat X = latitudes self /\ concat Y = longitudes self /\ concat P = post
    /\ length X = 256 /\ length Y = 256 /\ length P = 256
    /\ Forall (fun row => length row = 256) X
    /\ Forall (fun row => length row = 256) Y
    /\ Forall (fun row => length row = 256) P
    /\ length color_map = length (sm_to_rgba plt (idiv levels m))
    /\ forall j r g b a,
         nth_error (sm_to_rgba plt (idiv levels m)) j = Some (r, g, b, a) ->
         exists c, nth_error color_map j = Some c
                   /\ format_rgb plt (nofZ 255 * r)%num (nofZ 255 * g)%num
                        (nofZ 255 * b)%num = Ok c.
Proof.
  intros self sel X Y P Hrun Hcontour Hmax Hfmt Hrows Hpaths.
  destruct (length_lattice (num := num) objs0 256) as [Hlat Hlon].
  fold self in Hlat, Hlon.
  assert (Hpost : length post = 256 * 256).
  { pose proof (get_distribution_products self sel h) as Hp.
    rewrite Hrun in Hp. cbn [snd] in Hp.
    destruct (products self h sel (prior self)) as [d |] eqn:Hd; [| discriminate].
    inversion Hp; subst post.
    rewrite length_idiv, (length_products self h sel _ _ Hd), length_prior.
    exact Hlat. }
  assert (Hmark : exists marker,
            (if max_marker
             then (rbind (find_maximum self post)
                     (fun xy => Ok [scatter [fst xy] [snd xy]]))
             else Ok []) = Ok marker
            /\ (if max_marker
                then exists lat lon, find_maximum self post = Ok (lat, lon)
                                     /\ marker = [scatter [lat] [lon]]
                else marker = [])).
  { destruct max_marker.
    - destruct (find_maximum_returns self post) as (j & lat & lon & Hf & _).
      + intros ->. revert Hpost. cbn [length]. intros H. symmetry in H.
        apply Nat.eq_mul_0 in H. destruct H; discriminate.
      + rewrite Hpost, Hlat. apply Nat.le_refl.
      + rewrite Hpost, Hlon. apply Nat.le_refl.
      + exists [scatter [lat] [lon]]. rewrite Hf. cbn [rbind fst snd].
        split; [reflexivity |]. exists lat, lon. split; reflexivity.
    - exists []. split; reflexivity. }
  destruct Hmark as (marker & Hm & Hmspec).
  destruct (get_color_map_returns plt levels m Hmax Hfmt)
    as (color_map & Hcm & Hcmlen & Hcmnth).
  exists marker, color_map.
  split; [| split; [exact Hmspec |]].
  - unfold generate_map. cbv zeta.
    match goal with
    | |- context [get_distribution self ?s] =>
        replace s with sel
          by (subst sel; destruct objs as [[| r l] |]; reflexivity)
    end.
    unfold bind at 1. rewrite Hrun.
    unfold bind at 1, lift. rewrite Hm.
    unfold bind, lift, overlay.
    replace (String.eqb "lines" "lines") with true by reflexivity.
    rewrite (reshape_256_ok _ Hlat), (reshape_256_ok _ Hlon),
      (reshape_256_ok _ Hpost).
    cbn [rbind]. fold X Y P. rewrite Hcontour. cbn [rbind fst snd].
    rewrite Hcm. cbn [rbind].
    rewrite plot_paths_returns by (try rewrite Hcmlen; assumption).
    cbn [rbind]. unfold file_name. reflexivity.
  - subst X Y P. rewrite !concat_rows by assumption. rewrite !length_rows.
    repeat split; try reflexivity; try (apply width_rows; assumption);
      assumption.
Qed.

Lemma take_ok (a : list num) (idx : list nat) :
  (forall i, In i idx -> i < length a) ->
  exists ys, take a idx = Ok ys
             /\ length ys = length idx
             /\ forall k i, nth_error idx k = Some i ->
                            nth_error ys k = nth_error a i.
Proof.
  unfold take. induction idx as [| i idx IH]; intros Hin.
  - exists []. split; [reflexivity |]. split; [reflexivity |].
    intros [| k] i H; discriminate.
  - destruct IH as (ys & Hys & Hlen & Hnth);
      [intros j Hj; apply Hin; right; exact Hj |].
    destruct (nth_error a i) as [x |] eqn:Ex.
    2:{ apply nth_error_None in Ex. specialize (Hin i (or_introl eq_refl)). lia. }
    exists (x :: ys). cbn [mapM]. unfold index at 1. rewrite Ex, Hys.
    split; [reflexivity |]. split; [simpl; rewrite Hlen; reflexivity |].
    intros [| k] j Hk; simpl in Hk.
    + inversion Hk; subst. simpl. symmetry. exact Ex.
    + simpl. apply Hnth. exact Hk.
Qed.

(** X23: with [plot_type='heatmap'] the resolution is free.  Whenever
    [get_distribution] returns on the selection and the draw of
    [pull_heatmap_idx] returns indices of lattice cells, [generate_map]
    raises nothing of its own: it hands the heatmap one latitude and one
    longitude for each index drawn, those of the lattice cell of that
    index, in the order of the draw, with the threshold it was given. *)
Theorem generate_map_heatmap_draws_cells
  (choice : list num -> nat -> result (list nat)) (plt : Pyplot num)
  (objs0 : list ref) (n : nat)
  (objs : option (list ref)) (heatmap_size threshold : nat)
  (h h' : heap num) (post : list num) (idx : list nat) :
  let self := Mapper_init objs0 n in
  let sel := match objs with
             | None | Some [] => objs0
             | Some sel => sel
             end in
  get_distribution self sel h = (h', Ok post) ->
  choice post heatmap_size = Ok idx ->
  (forall i, In i idx -> i < n * n) ->
  exists lats lons,
    generate_map choice plt self objs "heatmap" false heatmap_size threshold h
    = (h', Ok [plotter (nadd SW_LAT NE_LAT / nofZ 2)%num
                 (nadd SW_LON NE_LON / nofZ 2)%num;
               heatmap lats lons threshold;
               polygon [SW_LAT; SW_LAT; NE_LAT; NE_LAT]
                 [SW_LON; NE_LON; NE_LON; SW_LON];
               draw ("../maps/"
                     ++ match sel with
                        | [obj] => name (h' obj)
                        | _ => "final_map"
                        end ++ ".html")%string])
    /\ length lats = length idx /\ length lons = length idx
    /\ forall k i, nth_error idx k = Some i ->
         nth_error lats k = nth_error (latitudes self) i
         /\ nth_error lons k = nth_error (longitudes self) i.
Proof.
  intros self sel Hrun Hdraw Hidx.
  destruct (length_lattice (num := num) objs0 n) as [Hlat Hlon].
  fold self in Hlat, Hlon.
  destruct (take_ok (latitudes self) idx) as (lats & Hlats & Hl1 & Hn1);
    [rewrite Hlat; exact Hidx |].
  destruct (take_ok (longitudes self) idx) as (lons & Hlons & Hl2 & Hn2);
    [rewrite Hlon; exact Hidx |].
  exists lats, lons. split; [| split; [exact Hl1 | split; [exact Hl2 |]]].
  - unfold generate_map. cbv zeta.
    match goal with
    | |- context [get_distribution self ?s] =>
        replace s with sel
          by (subst sel; destruct objs as [[| r l] |]; reflexivity)
    end.
    unfold bind at 1. rewrite Hrun.
    unfold bind, lift, overlay.
    replace (String.eqb "heatmap" "lines") with false by reflexivity.
    replace (String.eqb "heatmap" "heatmap") with true by reflexivity.
    rewrite Hdraw. cbn [rbind]. rewrite Hlats. cbn [rbind]. rewrite Hlons.
    cbn [rbind app]. unfold file_name. reflexivity.
  - intros k i Hk. split; [apply Hn1 | apply Hn2]; exact Hk.
Qed.

End RenderingFacts.

Section Loader.

Context {num : Type}.

Variable py_float : string -> result num.

(** ** The lines of a file *)

Lemma readlines_newline_nonempty (s : string) :
  readlines (s ++ String newline EmptyString) <> [].
Proof.
  destruct s as [| c s]; cbn [append readlines].
  - discriminate.
  - destruct (Ascii.eqb c newline); [discriminate |].
    destruct (readlines (s ++ String newline EmptyString)); discriminate.
Qed.

Lemma readlines_app (s rest : string) :
  readlines (s ++ String newline rest)
  = readlines (s ++ String newline EmptyString) ++ readlines rest.
Proof.
  induction s as [| c s IH]; cbn [append readlines].
  - replace (Ascii.eqb newline newline) with true by reflexivity. reflexivity.
  - destruct (Ascii.eqb c newline); [rewrite IH; reflexivity |].
    rewrite IH.
    pose proof (readlines_newline_nonempty s) as Hne.
    destruct (readlines (s ++ String newline EmptyString)); [congruence |].
    reflexivity.
Qed.

Lemma readlines_plain_line (s rest : string) :
  free_of newline s = true ->
  readlines (s ++ String newline rest)
  = (s ++ String newline EmptyString)%string :: readlines rest.
Proof.
  induction s as [| c s IH]; cbn [append readlines free_of]; intros H.
  - replace (Ascii.eqb newline newline) with true by reflexivity. reflexivity.
  - apply andb_prop in H. destruct H as [Hc Hs].
    apply negb_true_iff in Hc. rewrite Hc, (IH Hs). reflexivity.
Qed.

Lemma mapM_raises {X Y : Type} (f : X -> result Y) (l1 l2 : list X) (x : X) :
  value (f x) = None -> value (mapM f (l1 ++ x :: l2)) = None.
Proof.
  intros Hx. induction l1 as [| a l1 IH]; cbn [app mapM].
  - destruct (f x); [discriminate | reflexivity].
  - destruct (f a); [| reflexivity].
    destruct (mapM f (l1 ++ x :: l2)); [discriminate | reflexivity].
Qed.

Lemma parse_blank_line :
  value (parse_line py_float (String newline EmptyString)) = None.
Proof.
  unfold parse_line.
  replace (split (strip (String newline EmptyString))) with [EmptyString]
    by reflexivity.
  cbn [mapM]. destruct (py_float EmptyString); reflexivity.
Qed.

(** X8: a blank line anywhere in the river file makes the loader raise,
    whatever [float] makes of the other lines: at the start of the file,
    or after any line, and so also at its end. *)
Theorem read_river_blank_line_raises (before after : string) :
  value (read_river py_float (String newline after)) = None
  /\ value (read_river py_float
              (before ++ String newline (String newline after))) = None.
Proof.
  unfold read_river. split.
  - cbn [readlines]. replace (Ascii.eqb newline newline) with true by reflexivity.
    apply (mapM_raises _ [] _ _ parse_blank_line).
  - rewrite readlines_app. cbn [readlines].
    replace (Ascii.eqb newline newline) with true by reflexivity.
    apply mapM_raises, parse_blank_line.
Qed.

(** ** A line of two fields *)

Lemma rstrip_plain (s : string) : free_of newline s = true -> rstrip s = s.
Proof.
  induction s as [| c s IH]; cbn [rstrip free_of]; intros H; [reflexivity |].
  apply andb_prop in H. destruct H as [Hc Hs].
  apply negb_true_iff in Hc. rewrite (IH Hs), Hc.
  destruct s; reflexivity.
Qed.

Lemma rstrip_newline (s : string) :
  rstrip (s ++ String newline EmptyString) = rstrip s.
Proof.
  induction s as [| c s IH]; cbn [append rstrip].
  - replace (Ascii.eqb newline newline) with true by reflexivity. reflexivity.
  - rewrite IH. reflexivity.
Qed.

Lemma lstrip_plain (s t : string) :
  free_of newline s = true -> s <> EmptyString ->
  lstrip (s ++ t) = (s ++ t)%string.
Proof.
  destruct s as [| c s]; [congruence |]. cbn [append lstrip free_of].
  intros H _. apply andb_prop in H. destruct H as [Hc _].
  apply negb_true_iff in Hc. rewrite Hc. reflexivity.
Qed.

Lemma strip_line (s : string) :
  free_of newline s = true ->
  strip (s ++ String newline EmptyString) = s.
Proof.
  intros H. unfold strip. destruct s as [| c s].
  - reflexivity.
  - rewrite lstrip_plain by (exact H || discriminate).
    rewrite rstrip_newline. apply rstrip_plain. exact H.
Qed.

Lemma split_plain (s : string) : free_of comma s = true -> split s = [s].
Proof.
  induction s as [| c s IH]; cbn [split free_of]; intros H; [reflexivity |].
  apply andb_prop in H. destruct H as [Hc Hs].
  apply negb_true_iff in Hc. rewrite Hc, (IH Hs). reflexivity.
Qed.

Lemma split_two (a b : string) :
  free_of comma a = true -> free_of comma b = true ->
  split (a ++ String comma b) = [a; b].
Proof.
  intros Ha Hb. induction a as [| c a IH]; cbn [append split free_of] in *.
  - replace (Ascii.eqb comma comma) with true by reflexivity.
    rewrite (split_plain b Hb). reflexivity.
  - apply andb_prop in Ha. destruct Ha as [Hc Ha].
    apply negb_true_iff in Hc. rewrite Hc, (IH Ha). reflexivity.
Qed.

Lemma free_of_app (c : Ascii.ascii) (s t : string) :
  free_of c (s ++ t) = free_of c s && free_of c t.
Proof.
  induction s as [| c' s IH]; cbn [append free_of]; [reflexivity |].
  rewrite IH. apply andb_assoc.
Qed.

Lemma string_app_assoc (a b c : string) :
  ((a ++ b) ++ c = a ++ (b ++ c))%string.
Proof.
  induction a as [| x a IH]; cbn [append]; [reflexivity |].
  rewrite IH. reflexivity.
Qed.

Lemma parse_line_two_fields (lat lon : string) :
  plain lat = true -> plain lon = true ->
  parse_line py_float (lat ++ String comma lon ++ String newline EmptyString)
  = (x <- py_float lat ;; y <- py_float lon ;; Ok (x, y))%py.
Proof.
  unfold plain. intros Hlat Hlon.
  apply andb_prop in Hlat. destruct Hlat as [Hca Hna].
  apply andb_prop in Hlon. destruct Hlon as [Hcb Hnb].
  unfold parse_line.
  replace (lat ++ String comma lon ++ String newline EmptyString)%string
    with ((lat ++ String comma lon) ++ String newline EmptyString)%string
    by apply string_app_assoc.
  rewrite strip_line.
  - rewrite (split_two lat lon Hca Hcb). cbn [mapM rbind].
    destruct (py_float lat); [| reflexivity].
    destruct (py_float lon); reflexivity.
  - rewrite free_of_app. cbn [free_of]. rewrite Hna, Hnb. reflexivity.
Qed.

(** X9: a file of lines [lat,lon], each ended by a newline, whose fields
    contain neither a comma nor a newline, is read as one coordinate for
    each line, in the order of the file, the two fields of a line
    converted by [float] in that order; the loader raises exactly when,
    and as, the first failing conversion does. *)
Theorem read_river_of_river_file (fields : list (string * string)) :
  forallb (fun f => plain (fst f) && plain (snd f)) fields = true ->
  read_river py_float (river_file fields)
  = mapM (fun f => (x <- py_float (fst f) ;; y <- py_float (snd f) ;;
                    Ok (x, y))%py) fields.
Proof.
  unfold read_river.
  induction fields as [| [lat lon] fields IH]; cbn [forallb river_file mapM fst snd];
    intros H; [reflexivity |].
  apply andb_prop in H. destruct H as [Hf Hrest].
  apply andb_prop in Hf. destruct Hf as [Hlat Hlon].
  replace (lat ++ String comma (lon ++ String newline (river_file fields)))%string
    with ((lat ++ String comma lon) ++ String newline (river_file fields))%string
    by apply (string_app_assoc lat (String comma lon)).
  rewrite readlines_plain_line.
  - cbn [mapM]. rewrite (IH Hrest).
    replace ((lat ++ String comma lon) ++ String newline EmptyString)%string
      with (lat ++ String comma lon ++ String newline EmptyString)%string
      by (symmetry; apply (string_app_assoc lat (String comma lon))).
    rewrite (parse_line_two_fields lat lon Hlat Hlon). reflexivity.
  - unfold plain in *. apply andb_prop in Hlat, Hlon.
    rewrite free_of_app. cbn [free_of].
    destruct Hlat as [_ ->], Hlon as [_ ->]. reflexivity.
Qed.

End Loader.

(** * Binary64: the maximum of a posterior that holds a NaN *)

Section Binary64Maximum.

Lemma leb_nan_l (x : float) : (nan <=? x)%float = false.
Proof.
  rewrite leb_spec. unfold SFleb.
  replace (Prim2SF nan) with S754_nan by reflexivity. reflexivity.
Qed.

Lemma argmax_from_first_nan (pre rest : list float) :
  forall (mp : float) (mi i : nat),
  nisnan mp = false ->
  forallb (fun x => negb (nisnan x)) pre = true ->
  argmax_from mp mi i (pre ++ nan :: rest) = i + length pre.
Proof.
  induction pre as [| x pre IH]; intros mp mi i Hmp Hpre; cbn [app argmax_from].
  - rewrite Hmp. change (nleb nan mp) with (PrimFloat.leb nan mp).
    rewrite leb_nan_l. destruct rest; simpl; lia.
  - cbn [forallb] in Hpre. apply andb_prop in Hpre. destruct Hpre as [Hx Hpre].
    apply negb_true_iff in Hx. rewrite Hmp.
    destruct (nleb x mp).
    + rewrite (IH mp mi (S i) Hmp Hpre). simpl. lia.
    + rewrite (IH x i (S i) Hx Hpre). simpl. lia.
Qed.

Lemma np_argmax_first_nan (pre rest : list float) :
  forallb (fun x => negb (nisnan x)) pre = true ->
  np_argmax (pre ++ nan :: rest) = Ok (length pre).
Proof.
  intros Hpre. destruct pre as [| x pre]; cbn [app np_argmax].
  - destruct rest; reflexivity.
  - cbn [forallb] in Hpre. apply andb_prop in Hpre. destruct Hpre as [Hx Hpre].
    apply negb_true_iff in Hx.
    rewrite (argmax_from_first_nan pre rest x 0 1 Hx Hpre). reflexivity.
Qed.

(** X10: in binary64 a NaN counts as the maximum.  When the distribution
    holds a NaN, [find_maximum] returns the lattice coordinate of its
    first NaN, whatever the other entries are. *)
Theorem find_maximum_of_nan (self : Mapper float) (pre rest : list float)
  (lat lon : float) :
  forallb (fun x => negb (nisnan x)) pre = true ->
  nth_error (latitudes self) (length pre) = Some lat ->
  nth_error (longitudes self) (length pre) = Some lon ->
  find_maximum self (pre ++ nan :: rest) = Ok (lat, lon).
Proof.
  intros Hpre Hlat Hlon. unfold find_maximum, index.
  rewrite (np_argmax_first_nan pre rest Hpre). cbn [rbind].
  rewrite Hlat. cbn [rbind]. rewrite Hlon. reflexivity.
Qed.

(** The distribution 0.25, 0.5, NaN, 1 on the lattice of resolution 2: the
    maximum is put at cell 2, ahead of the entry 1. *)
Lemma find_maximum_of_nan_witness :
  find_maximum (Mapper_init [] 2) [0.25; 0.5; nan; 1]%float
  = Ok (SW_LAT, NE_LON).
Proof.
  apply (find_maximum_of_nan (Mapper_init [] 2) [0.25; 0.5]%float [1]%float).
  - reflexivity.
  - vm_compute. reflexivity.
  - vm_compute. reflexivity.
Defined.

(** X11: when the product of the prior and the clue densities is zero at
    every cell of a lattice that has a cell, the posterior is returned
    without an error and [find_maximum] puts the maximum at the first
    lattice cell, whatever numeric library is linked. *)
Theorem zero_mass_maximum_is_first_cell (L : Lib float) (self : Mapper float)
  (h : heap float) (objs : list ref) (d : list float) (lat lon : float) :
  products self h objs (prior self) = Ok d ->
  forallb is_zero d = true ->
  nth_error (latitudes self) 0 = Some lat ->
  nth_error (longitudes self) 0 = Some lon ->
  exists post,
    snd (get_distribution self objs h) = Ok post
    /\ find_maximum self post = Ok (lat, lon).
Proof.
  intros Hd Hz Hlat Hlon.
  exists (map (fun _ => nan) d). split.
  - assert (Hsum : np_sum d = 0%float) by (apply fold_add_zeros; exact Hz).
    rewrite get_distribution_products, Hd, Hsum. f_equal.
    apply idiv_zeros. exact Hz.
  - assert (Hlen : length d = length (latitudes self)).
    { rewrite (length_products self h objs _ _ Hd). apply length_prior. }
    destruct d as [| x d].
    + destruct (latitudes self); discriminate.
    + cbn [map]. unfold find_maximum, index.
      pose proof (np_argmax_first_nan [] (map (fun _ => nan) d) eq_refl) as Harg.
      cbn [app length] in Harg. rewrite Harg.
      cbn [rbind]. rewrite Hlat. cbn [rbind]. rewrite Hlon. reflexivity.
Qed.

(** The hypotheses are met by [narrow_satellite] on the lattice of
    resolution 2; its density is read from the cache, so no routine of the
    numeric library is called and any will do. *)
Lemma zero_mass_maximum_is_first_cell_witness :
  exists (L : Lib float) (post : list float),
    snd (get_distribution (Mapper_init [0%nat] 2) [0%nat]
           (fun _ => narrow_satellite)) = Ok post
    /\ find_maximum (Mapper_init [0%nat] 2) post = Ok (SW_LAT, SW_LON).
Proof.
  exists {| np_pi := nan; np_sin := fun x => x; np_cos := fun x => x;
            np_arcsin := fun x => x; np_arctan2 := fun y _ => y;
            np_exp := fun x => x; np_log := fun x => x;
            np_mod := fun x _ => x; scs_pdf := fun _ x => x |}.
  apply (zero_mass_maximum_is_first_cell _ (Mapper_init [0%nat] 2)
           (fun _ => narrow_satellite) [0%nat] [0; 0; 0; 0]%float).
  - vm_compute. reflexivity.
  - vm_compute. reflexivity.
  - vm_compute. reflexivity.
  - vm_compute. reflexivity.
Defined.

End Binary64Maximum.

(** * Exact arithmetic: more of the clue models *)

Section MoreExactClues.

Local Open Scope R_scope.

(** ** [Satellite.bearing] *)

Lemma Rmod_range (a b : R) : 0 < b -> 0 <= Rmod a b < b.
Proof.
  intros Hb. unfold Rmod.
  destruct (base_Int_part (a / b)) as [Hlo Hhi].
  assert (Hab : a = a / b * b) by (field; lra).
  set (q := IZR (Int_part (a / b))) in *.
  split.
  - assert (q * b <= a / b * b) by (apply Rmult_le_compat_r; lra). lra.
  - assert (a / b * b < (q + 1) * b) by (apply Rmult_lt_compat_r; lra). lra.
Qed.

(** X12: for any two coordinates the bearing is a number of degrees from
    0 inclusive to 360 exclusive. *)
Theorem bearing_in_range (start end_ : point R) :
  0 <= bearing start end_ < 360.
Proof.
  unfold bearing. cbv zeta. cbn [np_mod exact_lib nofZ exact].
  apply Rmod_range. lra.
Qed.

(** ** [Satellite.distance] on its own track *)

(** X13: a satellite built on two coordinates is at distance 0 from each
    of them: at the start of its track because the great-circle distance
    to it is 0, at the end because the two bearings are the same. *)
Theorem Satellite_distance_zero_at_ends (s e : point R) (ci_range : R) :
  distance (Satellite_init [s; e] ci_range) s = Ok 0
  /\ distance (Satellite_init [s; e] ci_range) e = Ok 0.
Proof.
  unfold distance, Satellite_init, Satellite_distance. cbn [own coords].
  split; f_equal.
  - rewrite vincenty_km_same.
    cbn [nsub nmul ndiv exact np_sin np_arcsin exact_lib nofZ].
    replace (0 / 6371) with 0 by (unfold Rdiv; ring).
    rewrite sin_0, Rmult_0_l, asin_0. ring.
  - unfold np_radians.
    cbn [nsub nmul ndiv exact np_sin np_arcsin np_pi exact_lib nofZ].
    replace ((bearing s e - bearing s e) * (PI / 180)) with 0 by ring.
    rewrite sin_0, Rmult_0_r, asin_0. ring.
Qed.

(** ** [River.convert_xy] *)

Lemma SW_LAT_value : SW_LAT = 52464011 / 1000000.
Proof. unfold SW_LAT, dec. cbn. reflexivity. Qed.

Lemma cos_SW_LAT_pos : 0 < cos (SW_LAT * PI / 180).
Proof.
  rewrite SW_LAT_value. pose proof PI_RGT_0 as Hpi.
  apply cos_gt_0.
  - assert (0 < 52464011 / 1000000 * PI / 180) by (unfold Rdiv; nra). lra.
  - assert (52464011 / 1000000 * PI / 180 = PI / 2 * (52464011 / 90000000))
      as -> by field.
    assert (PI / 2 * (52464011 / 90000000) < PI / 2 * 1)
      by (apply Rmult_lt_compat_l; lra).
    lra.
Qed.

Lemma km_per_degree_pos : 0 < dec (num := R) 111323 3.
Proof. unfold dec. cbn. lra. Qed.

Lemma convert_xy_inj (lon lat lon' lat' : R) :
  convert_xy lon lat = convert_xy lon' lat' -> lon = lon' /\ lat = lat'.
Proof.
  unfold convert_xy. cbv zeta.
  cbn [nsub nmul ndiv exact np_cos np_pi exact_lib nofZ].
  pose proof cos_SW_LAT_pos as Hc. pose proof km_per_degree_pos as Hk.
  set (c := cos (SW_LAT * PI / 180)) in *. set (k := dec 111323 3) in *.
  intros H. inversion H as [[Hx Hy]]. split.
  - assert (Hck : c * k <> 0) by nra.
    assert ((lon - SW_LON) * (c * k) = (lon' - SW_LON) * (c * k)) by lra.
    apply Rmult_eq_reg_r in H0; [lra | exact Hck].
  - apply Rmult_eq_reg_r in Hy; lra.
Qed.

(** X14: the planar projection sends the south-west corner of the region
    to the origin and different coordinates to different points, so two
    consecutive coordinates of a river that differ give a segment of
    positive length. *)
Theorem convert_xy_is_injective (a b : point R) :
  convert_xy SW_LON SW_LAT = (0, 0)
  /\ (convert_xy (fst a) (snd a) = convert_xy (fst b) (snd b) -> a = b).
Proof.
  split.
  - unfold convert_xy. cbv zeta. cbn [nsub nmul exact]. f_equal; ring.
  - intros H. apply convert_xy_inj in H. destruct a, b; simpl in *.
    destruct H; subst; reflexivity.
Qed.

End MoreExactClues.

Section MoreExactRiver.

Local Open Scope R_scope.

(** ** [River.line_distance] and [River.distance] as least distances *)

Lemma euclid_along (p s e : point R) (t : R) :
  euclid (along (s, e) t) p
  = R_sqrt.sqrt (Rsqr (fst s + t * (fst e - fst s) - fst p)
                 + Rsqr (snd s + t * (snd e - snd s) - snd p)).
Proof. reflexivity. Qed.

Lemma clamp_in_unit (u : R) : 0 <= Rmax 0 (Rmin 1 u) <= 1.
Proof.
  split; [apply Rmax_l |].
  apply Rmax_lub; [lra | apply Rmin_l].
Qed.

Lemma line_distance_least (p s e : point R) :
  s <> e ->
  (forall t, 0 <= t <= 1 -> line_distance p (s, e) <= euclid (along (s, e) t) p)
  /\ exists t, 0 <= t <= 1 /\ line_distance p (s, e) = euclid (along (s, e) t) p.
Proof.
  intros Hne. pose proof (segment_length_pos s e Hne) as Hpos.
  rewrite (line_distance_unfold p s e Hne). cbv zeta.
  split.
  - intros t Ht. rewrite euclid_along. apply sqrt_le_1_alt.
    unfold projection.
    destruct p as [p0 p1], s as [s0 s1], e as [e0 e1]; cbn [fst snd] in *.
    set (lx := e0 - s0) in *. set (ly := e1 - s1) in *.
    set (N := (p0 - s0) * lx + (p1 - s1) * ly).
    unfold Rsqr in *. set (D := lx * lx + ly * ly) in *.
    set (u := N / D).
    assert (HN : N = u * D) by (unfold u; field; lra).
    assert (Hf : forall c,
      (s0 + c * lx - p0) * (s0 + c * lx - p0)
      + (s1 + c * ly - p1) * (s1 + c * ly - p1)
      = D * c * c - 2 * N * c + ((p0 - s0) * (p0 - s0) + (p1 - s1) * (p1 - s1)))
      by (intros c; unfold D, N; ring).
    rewrite (Hf t), (Hf (Rmax 0 (Rmin 1 u))), HN.
    clear Hf HN. clearbody u. clearbody D.
    destruct (Rle_dec u 0) as [H0 | H0].
    + rewrite Rmin_right by lra. rewrite Rmax_left by lra.
      assert (0 <= D * (t * t))
        by (apply Rmult_le_pos; [lra | apply (Rle_0_sqr t)]).
      assert (0 <= (- u) * (D * t))
        by (apply Rmult_le_pos; [lra | apply Rmult_le_pos; lra]).
      nra.
    + destruct (Rle_dec u 1) as [H1 | H1].
      * rewrite Rmin_right by lra. rewrite Rmax_right by lra.
        assert (0 <= D * ((t - u) * (t - u)))
          by (apply Rmult_le_pos; [lra | apply (Rle_0_sqr (t - u))]).
        nra.
      * rewrite Rmin_left by lra. rewrite Rmax_right by lra.
        assert (0 <= D * ((1 - t) * (2 * u - 1 - t)))
          by (apply Rmult_le_pos; [lra | apply Rmult_le_pos; lra]).
        nra.
  - exists (Rmax 0 (Rmin 1 (projection p (s, e)))).
    split; [apply clamp_in_unit | reflexivity].
Qed.

(** X15: on a segment whose ends differ, [line_distance] is the least
    distance from the query point to the points of the segment: it is at
    most the distance to every point between the ends, and it is the
    distance to one of them. *)
Theorem line_distance_is_least (p s e : point R) :
  s <> e ->
  (forall t, 0 <= t <= 1 -> line_distance p (s, e) <= euclid (along (s, e) t) p)
  /\ exists t, 0 <= t <= 1 /\ line_distance p (s, e) = euclid (along (s, e) t) p.
Proof. apply line_distance_least. Qed.

(** The point (3, 4) and the segment from (0, 0) to (1, 0): the nearest
    point is the end (1, 0). *)
Lemma line_distance_is_least_witness :
  line_distance (3, 4) ((0, 0), (1, 0)) <= euclid (along ((0, 0), (1, 0)) (1 / 2)) (3, 4).
Proof.
  assert (H : ((0, 0) : point R) <> (1, 0)) by (intros E; inversion E; lra).
  apply (proj1 (line_distance_is_least (3, 4) (0, 0) (1, 0) H)). lra.
Defined.

(** Over the reals Python's [min] is the least entry. *)
Lemma min_from_least (l : list R) :
  forall m, In (min_from m l) (m :: l) /\ forall x, In x (m :: l) -> min_from m l <= x.
Proof.
  induction l as [| y l IH]; intros m; cbn [min_from].
  - split; [left; reflexivity |]. intros x [<- | []]. lra.
  - cbn [nltb exact]. unfold Rltb.
    destruct (Rlt_dec y m) as [Hlt | Hge]; destruct (IH (if Rlt_dec y m then y else m)) as [Hin Hle];
      destruct (Rlt_dec y m); try lra.
    + split.
      * destruct Hin as [<- | Hin]; [right; left; reflexivity | right; right; exact Hin].
      * intros x [<- | [<- | Hx]].
        -- specialize (Hle y (or_introl eq_refl)). lra.
        -- apply Hle. left; reflexivity.
        -- apply Hle. right; exact Hx.
    + split.
      * destruct Hin as [<- | Hin]; [left; reflexivity | right; right; exact Hin].
      * intros x [<- | [<- | Hx]].
        -- apply Hle. left; reflexivity.
        -- specialize (Hle m (or_introl eq_refl)). lra.
        -- apply Hle. right; exact Hx.
Qed.

Lemma River_distance_least (lines : list (segment R)) (p : point R) :
  lines <> [] ->
  (forall line, In line lines -> fst line <> snd line) ->
  exists m,
    River_distance lines p = Ok m
    /\ 0 <= m
    /\ (forall line t, In line lines -> 0 <= t <= 1 ->
          m <= euclid (along line t) (convert_xy (fst p) (snd p)))
    /\ exists line t, In line lines /\ 0 <= t <= 1
          /\ m = euclid (along line t) (convert_xy (fst p) (snd p)).
Proof.
  intros Hne Hseg. unfold River_distance. cbv zeta.
  set (q := convert_xy (fst p) (snd p)).
  destruct lines as [| l0 lines]; [congruence |]. cbn [map py_min].
  destruct (min_from_least (map (line_distance q) lines) (line_distance q l0))
    as [Hin Hle].
  set (m := min_from (line_distance q l0) (map (line_distance q) lines)) in *.
  assert (Hm : exists line, In line (l0 :: lines) /\ m = line_distance q line).
  { destruct Hin as [<- | Hin].
    - exists l0. split; [left; reflexivity | reflexivity].
    - apply in_map_iff in Hin. destruct Hin as (line & <- & Hl).
      exists line. split; [right; exact Hl | reflexivity]. }
  destruct Hm as (line & Hline & Hmline).
  destruct line as [s e]. pose proof (Hseg (s, e) Hline) as Hd. cbn [fst snd] in Hd.
  destruct (line_distance_least q s e Hd) as [_ (t & Ht & Heq)].
  exists m. split; [reflexivity |]. split; [| split].
  - rewrite Hmline, Heq. apply sqrt_pos.
  - intros [s' e'] t' Hl' Ht'.
    pose proof (Hseg (s', e') Hl') as Hd'. cbn [fst snd] in Hd'.
    destruct (line_distance_least q s' e' Hd') as [Hall _].
    apply Rle_trans with (line_distance q (s', e')); [| apply Hall; exact Ht'].
    apply Hle. destruct Hl' as [<- | Hl']; [left; reflexivity |].
    right. apply in_map. exact Hl'.
  - exists (s, e), t. split; [exact Hline |]. split; [exact Ht |].
    rewrite Hmline. exact Heq.
Qed.

(** X16: for a river that has a segment and none of length zero,
    [River.distance] does not raise and returns the least distance from
    the planar image of the query point to the points of the segments: a
    non-negative number, at most the distance to every point of every
    segment, and the distance to one of them. *)
Theorem River_distance_is_least (lines : list (segment R)) (p : point R) :
  lines <> [] ->
  (forall line, In line lines -> fst line <> snd line) ->
  exists m,
    River_distance lines p = Ok m
    /\ 0 <= m
    /\ (forall line t, In line lines -> 0 <= t <= 1 ->
          m <= euclid (along line t) (convert_xy (fst p) (snd p)))
    /\ exists line t, In line lines /\ 0 <= t <= 1
          /\ m = euclid (along line t) (convert_xy (fst p) (snd p)).
Proof. apply River_distance_least. Qed.

(** A river of the one segment from (0, 0) to (1, 0), in the plane. *)
Lemma River_distance_is_least_witness :
  exists m, River_distance [((0, 0), (1, 0))] (52.5, 13.4) = Ok m /\ 0 <= m.
Proof.
  destruct (River_distance_is_least [((0, 0), (1, 0))] (52.5, 13.4))
    as (m & Hm & Hpos & _).
  - discriminate.
  - intros line [<- | []]. cbn [fst snd]. intros E; inversion E; lra.
  - exists m. split; assumption.
Defined.

Lemma euclid_same (q : point R) : euclid q q = 0.
Proof.
  unfold euclid. rewrite !Rminus_diag. unfold Rsqr.
  rewrite Rmult_0_l, Rplus_0_l. apply sqrt_0.
Qed.

Lemma along_0 (s e : point R) : along (s, e) 0 = s.
Proof. destruct s; unfold along; cbn [fst snd]. f_equal; ring. Qed.

Lemma along_1 (s e : point R) : along (s, e) 1 = e.
Proof. destruct e; unfold along; cbn [fst snd]. f_equal; ring. Qed.

Lemma make_linear_nonempty (cs : list (point R)) :
  (2 <= length cs)%nat -> make_linear cs <> [].
Proof.
  intros Hlen E. apply (f_equal (@length _)) in E.
  rewrite length_make_linear in E. simpl in E. lia.
Qed.

Lemma make_linear_segment (cs : list (point R)) (k : nat) (line : segment R) :
  nth_error (make_linear cs) k = Some line ->
  exists a b, nth_error cs k = Some a /\ nth_error cs (S k) = Some b
              /\ line = (convert_xy (fst a) (snd a), convert_xy (fst b) (snd b)).
Proof.
  intros Hk.
  assert (Hklt : (k < length (make_linear cs))%nat)
    by (apply nth_error_Some; rewrite Hk; discriminate).
  rewrite length_make_linear in Hklt.
  destruct (nth_error cs k) as [a |] eqn:Ea;
    [| apply nth_error_None in Ea; lia].
  destruct (nth_error cs (S k)) as [b |] eqn:Eb;
    [| apply nth_error_None in Eb; lia].
  exists a, b. split; [reflexivity |]. split; [reflexivity |].
  rewrite (nth_error_make_linear cs k a b Ea Eb) in Hk.
  inversion Hk. reflexivity.
Qed.

Lemma make_linear_nondegenerate (cs : list (point R)) :
  distinct_neighbours cs ->
  forall line, In line (make_linear cs) -> fst line <> snd line.
Proof.
  intros Hdiff line Hin. apply In_nth_error in Hin. destruct Hin as [k Hk].
  destruct (make_linear_segment cs k line Hk) as (a & b & Ha & Hb & ->).
  cbn [fst snd]. intros E. apply (Hdiff k a b Ha Hb).
  apply convert_xy_inj in E. destruct a, b; simpl in *.
  destruct E; subst; reflexivity.
Qed.

(** X17: a river built from at least two coordinates, no two consecutive
    ones equal, is at distance 0 from each of its own coordinates. *)
Theorem River_distance_zero_at_vertices (cs : list (point R)) (ci_range : R)
  (i : nat) (c : point R) :
  distinct_neighbours cs ->
  (2 <= length cs)%nat ->
  nth_error cs i = Some c ->
  distance (River_init cs ci_range) c = Ok 0.
Proof.
  intros Hdiff Hlen Hc. unfold distance, River_init. cbn [own].
  destruct (River_distance_least (make_linear cs) c) as (m & Hm & Hpos & Hall & _).
  - apply make_linear_nonempty. exact Hlen.
  - apply make_linear_nondegenerate. exact Hdiff.
  - rewrite Hm. f_equal.
    assert (Hzero : m <= 0).
    { assert (Hi : (i < length cs)%nat)
        by (apply nth_error_Some; rewrite Hc; discriminate).
      destruct (Nat.lt_ge_cases (S i) (length cs)) as [Hlt | Hge].
      - destruct (nth_error cs (S i)) as [b |] eqn:Eb;
          [| apply nth_error_None in Eb; lia].
        pose proof (nth_error_make_linear cs i c b Hc Eb) as Hl.
        apply nth_error_In in Hl.
        specialize (Hall _ 0 Hl ltac:(lra)).
        rewrite along_0, euclid_same in Hall. exact Hall.
      - destruct i as [| j]; [lia |].
        destruct (nth_error cs j) as [a |] eqn:Ea;
          [| apply nth_error_None in Ea; lia].
        pose proof (nth_error_make_linear cs j a c Ea Hc) as Hl.
        apply nth_error_In in Hl.
        specialize (Hall _ 1 Hl ltac:(lra)).
        rewrite along_1, euclid_same in Hall. exact Hall. }
    lra.
Qed.

(** A river of two coordinates, asked at its second one. *)
Lemma River_distance_zero_at_vertices_witness :
  distance (River_init [(52.5, 13.3); (52.5, 13.4)] 2.73) (52.5, 13.4) = Ok 0.
Proof.
  apply (River_distance_zero_at_vertices [(52.5, 13.3); (52.5, 13.4)] 2.73 1).
  - intros [| [| k]] a b Ha Hb; simpl in *.
    + inversion Ha; inversion Hb; subst. intros E; inversion E; lra.
    + discriminate.
    + discriminate.
  - simpl. lia.
  - reflexivity.
Defined.

End MoreExactRiver.
(** * More about the clues and the posterior, over the reals *)

Section MoreExactPosterior.

Local Open Scope R_scope.

(** ** What a degree is worth to [River.distance] *)

Lemma line_distance_along_x (sx ex y px d t : R) :
  sx <> ex -> 0 <= t <= 1 -> px - sx = t * (ex - sx) ->
  line_distance (px, y + d) ((sx, y), (ex, y)) = Rabs d.
Proof.
  intros Hne Ht Hp.
  rewrite line_distance_unfold by (intros E; inversion E; lra).
  cbv zeta.
  match goal with
  | |- context [projection ?q ?l] => assert (Hu : projection q l = t)
  end.
  { unfold projection. cbn [fst snd]. rewrite Hp. unfold Rsqr. field.
    assert (0 < (ex - sx) * (ex - sx)) by (apply Rsqr_pos_lt; lra). lra. }
  rewrite Hu, Rmin_right by lra. rewrite Rmax_right by lra. cbn [fst snd].
  replace (Rsqr (sx + t * (ex - sx) - px) + Rsqr (y + t * (y - y) - (y + d)))
    with (Rsqr d) by (unfold Rsqr; replace px with (sx + t * (ex - sx)) by lra; ring).
  apply sqrt_Rsqr_abs.
Qed.

Lemma line_distance_along_y (x sy ey py d t : R) :
  sy <> ey -> 0 <= t <= 1 -> py - sy = t * (ey - sy) ->
  line_distance (x + d, py) ((x, sy), (x, ey)) = Rabs d.
Proof.
  intros Hne Ht Hp.
  rewrite line_distance_unfold by (intros E; inversion E; lra).
  cbv zeta.
  match goal with
  | |- context [projection ?q ?l] => assert (Hu : projection q l = t)
  end.
  { unfold projection. cbn [fst snd]. rewrite Hp. unfold Rsqr. field.
    assert (0 < (ey - sy) * (ey - sy)) by (apply Rsqr_pos_lt; lra). lra. }
  rewrite Hu, Rmin_right by lra. rewrite Rmax_right by lra. cbn [fst snd].
  replace (Rsqr (x + t * (x - x) - (x + d)) + Rsqr (sy + t * (ey - sy) - py))
    with (Rsqr d) by (unfold Rsqr; replace py with (sy + t * (ey - sy)) by lra; ring).
  apply sqrt_Rsqr_abs.
Qed.

(** X18: [River.distance] hands the first component of a coordinate to
    the parameter [lon] of [convert_xy] and the second to [lat].  So, for
    a river of one segment whose two coordinates have the same second
    component and a query point whose first component lies between
    theirs, the distance is 111.323 for each unit by which the second
    components differ; and with the roles of the components exchanged it
    is [cos (SW_LAT * pi / 180) * 111.323] for each unit by which the
    first components differ. *)
Theorem River_distance_per_degree (a0 a1 b a d ci_range : R) :
  a0 <> a1 ->
  Rmin a0 a1 <= a <= Rmax a0 a1 ->
  distance (River_init [(a0, b); (a1, b)] ci_range) (a, b + d)
  = Ok (Rabs d * dec 111323 3)
  /\ distance (River_init [(b, a0); (b, a1)] ci_range) (b + d, a)
     = Ok (Rabs d * (cos (SW_LAT * PI / 180) * dec 111323 3)).
Proof.
  intros Hne Ha.
  pose proof cos_SW_LAT_pos as Hc. pose proof km_per_degree_pos as Hk.
  assert (Hbetween : exists t, 0 <= t <= 1 /\ a - a0 = t * (a1 - a0)).
  { exists ((a - a0) / (a1 - a0)). split; [| field; lra].
    unfold Rmin, Rmax in Ha. destruct (Rle_dec a0 a1) as [Hle | Hgt].
    - split.
      + apply Rmult_le_pos; [lra |]. left. apply Rinv_0_lt_compat. lra.
      + apply Rmult_le_reg_r with (a1 - a0); [lra |].
        unfold Rdiv. rewrite Rmult_assoc, Rinv_l by lra. lra.
    - replace ((a - a0) / (a1 - a0)) with ((a0 - a) / (a0 - a1)) by (field; lra).
      split.
      + apply Rmult_le_pos; [lra |]. left. apply Rinv_0_lt_compat. lra.
      + apply Rmult_le_reg_r with (a0 - a1); [lra |].
        unfold Rdiv. rewrite Rmult_assoc, Rinv_l by lra. lra. }
  destruct Hbetween as (t & Ht & Hat).
  unfold distance, River_init, make_linear, River_distance. cbv zeta.
  cbn [own map removelast tl combine py_min min_from fst snd].
  unfold convert_xy. cbv zeta.
  cbn [nsub nmul ndiv exact np_cos np_pi exact_lib nofZ].
  set (c := cos (SW_LAT * PI / 180)) in *. set (k := dec 111323 3) in *.
  assert (Hck : 0 < c * k) by (apply Rmult_lt_0_compat; assumption).
  split; f_equal.
  - replace ((b + d - SW_LAT) * k) with ((b - SW_LAT) * k + d * k) by ring.
    rewrite (line_distance_along_x _ _ _ _ _ t).
    + rewrite Rabs_mult, (Rabs_pos_eq k) by lra. reflexivity.
    + intros E. apply Rmult_eq_reg_r in E; [| lra].
      apply Rmult_eq_reg_r in E; [| lra]. lra.
    + exact Ht.
    + replace (a - SW_LON) with (a0 - SW_LON + t * (a1 - a0)) by lra. ring.
  - replace ((b + d - SW_LON) * c * k) with ((b - SW_LON) * c * k + d * (c * k)) by ring.
    rewrite (line_distance_along_y _ _ _ _ _ t).
    + rewrite Rabs_mult, (Rabs_pos_eq (c * k)) by lra. reflexivity.
    + intros E. apply Rmult_eq_reg_r in E; [| lra]. lra.
    + exact Ht.
    + replace (a - SW_LAT) with (a0 - SW_LAT + t * (a1 - a0)) by lra. ring.
Qed.

(** A segment from 52.4 to 52.6 in the first component, and a point one
    unit away in the second. *)
Lemma River_distance_per_degree_witness :
  distance (River_init [(52.4, 13.4); (52.6, 13.4)] 2.73) (52.5, 13.4 + 1)
  = Ok (Rabs 1 * dec 111323 3).
Proof.
  apply (River_distance_per_degree 52.4 52.6 13.4 52.5 1 2.73).
  - lra.
  - unfold Rmin, Rmax. destruct (Rle_dec 52.4 52.6); lra.
Defined.

(** ** The density of the gate *)

(** X19: for a mode that is positive and below [exp mean], the
    log-normal density that [BGate.set_distribution] builds is nowhere
    larger than at the distance [mode], where it is positive: the clue is
    most likely at [mode] kilometres from the gate. *)
Theorem BGate_density_peaks_at_mode (cs : list (point R)) (mean mode x : R) :
  0 < mode ->
  mode < exp mean ->
  scs_pdf (distribution (BGate_init cs mean mode)) x
  <= scs_pdf (distribution (BGate_init cs mean mode)) mode
  /\ 0 < scs_pdf (distribution (BGate_init cs mean mode)) mode.
Proof.
  intros Hmode Hlt.
  unfold BGate_init, set_distribution. cbv zeta.
  cbn [distribution scs_pdf exact_lib Rpdf np_exp np_log nsqrt ndiv exact].
  set (S := exp mean) in *.
  assert (HS : 0 < S) by apply exp_pos.
  set (t := ln (S / mode)).
  assert (Hratio : 1 < S / mode).
  { apply Rmult_lt_reg_r with mode; [exact Hmode |].
    unfold Rdiv. rewrite Rmult_assoc, Rinv_l by lra. lra. }
  assert (Ht : 0 < t).
  { unfold t. rewrite <- ln_1. apply ln_increasing; lra. }
  assert (Hs : 0 < R_sqrt.sqrt t) by (apply sqrt_lt_R0; exact Ht).
  assert (Hss : Rsqr (R_sqrt.sqrt t) = t) by (apply Rsqr_sqrt; lra).
  rewrite Hss. set (s := R_sqrt.sqrt t) in *.
  assert (HK : 0 < R_sqrt.sqrt (2 * PI))
    by (apply sqrt_lt_R0; pose proof PI_RGT_0; lra).
  set (K := R_sqrt.sqrt (2 * PI)) in *.
  assert (Hform : forall z, 0 < z ->
            exp (- (Rsqr (ln (z / S)) / (2 * t))) / (s * (z / S) * K) / S
            = exp (- (Rsqr (ln (z / S)) / (2 * t)) - ln (z / S)) * / (s * K * S)).
  { intros z Hz.
    assert (Hzs : 0 < z / S) by (apply Rdiv_lt_0_compat; assumption).
    unfold Rminus. rewrite exp_plus, (exp_Ropp (ln (z / S))), (exp_ln _ Hzs).
    field. repeat split; lra. }
  assert (Hmode_ln : ln (mode / S) = - t).
  { unfold t. replace (mode / S) with (/ (S / mode)) by (field; lra).
    apply ln_Rinv. lra. }
  assert (Hc : 0 < / (s * K * S)).
  { apply Rinv_0_lt_compat. repeat apply Rmult_lt_0_compat; assumption. }
  assert (Hat_mode : exp (- (Rsqr (ln (mode / S)) / (2 * t))) / (s * (mode / S) * K) / S
                     = exp (t / 2) * / (s * K * S)).
  { rewrite (Hform mode Hmode), Hmode_ln. f_equal. f_equal.
    unfold Rsqr. field. lra. }
  destruct (Rle_dec mode 0) as [Hm0 | _]; [lra |].
  rewrite Hat_mode.
  assert (Hpos : 0 < exp (t / 2) * / (s * K * S))
    by (apply Rmult_lt_0_compat; [apply exp_pos | exact Hc]).
  split; [| exact Hpos].
  destruct (Rle_dec x 0) as [Hx0 | Hx0]; [lra |].
  rewrite (Hform x) by lra.
  apply Rmult_le_compat_r; [lra |].
  set (y := ln (x / S)).
  assert (Hexp : - (Rsqr y / (2 * t)) - y <= t / 2).
  { assert (Hq : t / 2 - (- (Rsqr y / (2 * t)) - y) = Rsqr (y + t) * / (2 * t))
      by (unfold Rsqr; field; lra).
    assert (0 <= Rsqr (y + t) * / (2 * t)).
    { apply Rmult_le_pos; [apply Rle_0_sqr |].
      left. apply Rinv_0_lt_compat. lra. }
    lra. }
  destruct (Rle_lt_or_eq_dec _ _ Hexp) as [Hl | He].
  - left. apply exp_increasing. exact Hl.
  - rewrite He. lra.
Qed.

(** The gate of [main.py]: mean 4.7, mode 3.877. *)
Lemma BGate_density_peaks_at_mode_witness :
  0 < scs_pdf (distribution (BGate_init bg_coords 4.7 3.877)) 3.877.
Proof.
  apply (BGate_density_peaks_at_mode bg_coords 4.7 3.877 0).
  - lra.
  - pose proof (exp_ineq1 4.7). lra.
Defined.

(** ** The posterior of particular selections *)

Lemma np_sum_repeat (c : R) (n : nat) : np_sum (repeat c n) = INR n * c.
Proof.
  induction n as [| n IH].
  - cbn [repeat]. rewrite np_sum_nil. simpl. ring.
  - cbn [repeat]. rewrite np_sum_cons, IH, S_INR. ring.
Qed.

Lemma idiv_repeat (c s : R) (n : nat) : idiv (repeat c n) s = repeat (c / s) n.
Proof.
  unfold idiv. induction n as [| n IH]; [reflexivity |].
  cbn [repeat map]. rewrite IH. reflexivity.
Qed.

(** X20: asked for no clue at all, [get_distribution] returns the uniform
    prior: each of the [n * n] cells of the lattice of resolution [n]
    gets [1 / (n * n)], and the store is left as it was. *)
Theorem get_distribution_of_no_clue (objs0 : list ref) (n : nat) (h : heap R) :
  get_distribution (Mapper_init objs0 n) [] h
  = (h, Ok (repeat (1 / INR (n * n)) (n * n))).
Proof.
  unfold get_distribution, bind. cbn [for_objs]. unfold ret.
  rewrite prior_uniform.
  rewrite (proj1 (length_lattice objs0 n)).
  rewrite np_sum_repeat, idiv_repeat.
  f_equal. f_equal.
  destruct (n * n)%nat as [| m] eqn:Hm; [reflexivity |].
  assert (Hpos : 0 < INR (Datatypes.S m)) by (apply lt_0_INR; lia).
  f_equal. cbn [ndiv exact]. field. lra.
Qed.

Lemma mul2_repeat_l (u : R) (dens : list R) :
  mul2 (repeat u (length dens)) dens = map (fun x => u * x) dens.
Proof.
  unfold mul2. induction dens as [| x dens IH]; [reflexivity |].
  cbn [length repeat combine map fst snd]. rewrite IH. reflexivity.
Qed.

Lemma np_sum_scale (u : R) (dens : list R) :
  np_sum (map (fun x => u * x) dens) = u * np_sum dens.
Proof.
  induction dens as [| x dens IH].
  - cbn [map]. rewrite np_sum_nil. ring.
  - cbn [map]. rewrite !np_sum_cons, IH. ring.
Qed.

(** X21: for a single clue whose density sequence has one entry per
    lattice cell and a total that is not zero, the prior cancels: the
    posterior is the density sequence divided by its total. *)
Theorem posterior_of_one_clue (self : Mapper R) (h : heap R) (obj : ref)
  (dens : list R) :
  density_of self (h obj) = Ok dens ->
  length dens = length (latitudes self) ->
  np_sum dens <> 0 ->
  snd (get_distribution self [obj] h) = Ok (idiv dens (np_sum dens)).
Proof.
  intros Hd Hlen Hsum.
  rewrite get_distribution_products. cbn [products]. rewrite Hd. cbn [rbind].
  rewrite imul_same_length by (rewrite length_prior; exact Hlen).
  cbn [rbind]. rewrite prior_uniform, <- Hlen, mul2_repeat_l, np_sum_scale.
  f_equal.
  assert (Hne : dens <> []) by (intros ->; apply Hsum; apply np_sum_nil).
  assert (Hpos : 0 < INR (length dens)).
  { apply lt_0_INR. destruct dens; [congruence | simpl; lia]. }
  unfold idiv. rewrite map_map. apply map_ext. intros x.
  cbn [ndiv exact]. field. split; lra.
Qed.

(** A clue whose cache holds the densities 1 and 3 over the two cells of
    a mapper: the posterior is 1/4 and 3/4. *)
Lemma posterior_of_one_clue_witness :
  snd (get_distribution (mkMapper [0%nat] [0; 0] [0; 0]) [0%nat]
         (fun _ => set_pdf (BGate_init bg_coords 4.7 3.877) [1; 3]))
  = Ok (idiv [1; 3] (np_sum [1; 3])).
Proof.
  apply (posterior_of_one_clue (mkMapper [0%nat] [0; 0] [0; 0])
           (fun _ => set_pdf (BGate_init bg_coords 4.7 3.877) [1; 3]) 0%nat [1; 3]).
  - reflexivity.
  - reflexivity.
  - rewrite !np_sum_cons, np_sum_nil. lra.
Defined.

(** ** Freshly built satellites and rivers *)

Lemma normal_clue_prob (o : Location R) (p : point R) :
  normal_clue o -> exists v, prob o p = Ok v /\ 0 < v.
Proof.
  intros [(s & e & ci & Hci & ->) | (cs & ci & Hci & Hlen & Hdiff & ->)].
  - unfold prob, distance, Satellite_init. cbn [own coords distribution].
    unfold Satellite_distance. cbn [rbind].
    eexists. split; [reflexivity |].
    apply norm_density_pos. cbn [ndiv exact]. unfold dec. cbn.
    apply Rdiv_lt_0_compat; lra.
  - unfold prob, distance, River_init. cbn [own coords distribution].
    destruct (River_distance_least (make_linear cs) p) as (m & Hm & _).
    + apply make_linear_nonempty. exact Hlen.
    + apply make_linear_nondegenerate. exact Hdiff.
    + rewrite Hm. cbn [rbind]. eexists. split; [reflexivity |].
      apply norm_density_pos. cbn [ndiv exact]. unfold dec. cbn.
      apply Rdiv_lt_0_compat; lra.
Qed.

Lemma mapM_all {X Y : Type} (f : X -> result Y) (P : Y -> Prop) (l : list X) :
  (forall x, exists v, f x = Ok v /\ P v) ->
  exists ys, mapM f l = Ok ys /\ length ys = length l /\ forall y, In y ys -> P y.
Proof.
  intros Hf. induction l as [| x l IH].
  - exists []. split; [reflexivity |]. split; [reflexivity |]. intros y [].
  - destruct (Hf x) as (v & Hv & HP). destruct IH as (ys & Hys & Hlen & Hall).
    exists (v :: ys). cbn [mapM]. rewrite Hv, Hys.
    split; [reflexivity |]. split; [simpl; rewrite Hlen; reflexivity |].
    intros y [<- | Hy]; [exact HP | apply Hall; exact Hy].
Qed.

Lemma normal_clue_fresh (o : Location R) : normal_clue o -> pdf o = None.
Proof.
  intros [(s & e & ci & _ & ->) | (cs & ci & _ & _ & _ & ->)]; reflexivity.
Qed.

Lemma normal_clue_density (objs0 : list ref) (n : nat) (o : Location R) :
  normal_clue o ->
  exists dens, density_of (Mapper_init objs0 n) o = Ok dens
               /\ length dens = (n * n)%nat
               /\ forall x, In x dens -> 0 < x.
Proof.
  intros Ho. unfold density_of. rewrite (normal_clue_fresh o Ho).
  unfold lattice_density.
  destruct (mapM_all (prob o) (fun v => 0 < v)
              (combine (latitudes (Mapper_init objs0 n))
                       (longitudes (Mapper_init objs0 n))))
    as (ys & Hys & Hlen & Hall).
  - intros p. apply normal_clue_prob. exact Ho.
  - exists ys. split; [exact Hys |]. split; [| exact Hall].
    rewrite Hlen. unfold point. rewrite length_combine.
    destruct (length_lattice (num := R) objs0 n) as [-> ->]. apply Nat.min_id.
Qed.

Lemma mul2_pos (d p : list R) :
  (forall x, In x d -> 0 < x) -> (forall x, In x p -> 0 < x) ->
  forall x, In x (mul2 d p) -> 0 < x.
Proof.
  intros Hd Hp x Hx. unfold mul2 in Hx. apply in_map_iff in Hx.
  destruct Hx as ([a b] & <- & Hin). cbn [fst snd nmul exact].
  apply Rmult_lt_0_compat.
  - apply Hd. eapply in_combine_l; eassumption.
  - apply Hp. eapply in_combine_r; eassumption.
Qed.

Lemma products_pos (self : Mapper R) (h : heap R) (k : nat) (objs : list ref) :
  (forall r, In r objs ->
     exists dens, density_of self (h r) = Ok dens /\ length dens = k
                  /\ forall x, In x dens -> 0 < x) ->
  forall d, length d = k -> (forall x, In x d -> 0 < x) ->
  exists d', products self h objs d = Ok d' /\ length d' = k
             /\ forall x, In x d' -> 0 < x.
Proof.
  induction objs as [| obj objs IH]; intros Hobjs d Hlen Hd.
  - exists d. split; [reflexivity |]. split; assumption.
  - destruct (Hobjs obj (or_introl eq_refl)) as (dens & Hdens & Hl & Hp).
    cbn [products]. rewrite Hdens. cbn [rbind].
    rewrite imul_same_length by congruence. cbn [rbind].
    apply IH.
    + intros r Hr. apply Hobjs. right; exact Hr.
    + rewrite length_mul2; [exact Hlen | congruence].
    + apply mul2_pos; assumption.
Qed.

Lemma np_sum_pos (d : list R) :
  d <> [] -> (forall x, In x d -> 0 < x) -> 0 < np_sum d.
Proof.
  destruct d as [| x d]; [congruence |]. intros _ Hd.
  rewrite np_sum_cons.
  assert (0 < x) by (apply Hd; left; reflexivity).
  assert (0 <= np_sum d).
  { apply np_sum_nonneg. intros y Hy. left. apply Hd. right; exact Hy. }
  lra.
Qed.

(** Freshly built satellites and rivers give every cell a positive mass. *)
Lemma normal_clues_run (objs0 : list ref) (n : nat) (h : heap R)
  (objs : list ref) :
  (1 <= n)%nat ->
  (forall r, In r objs -> normal_clue (h r)) ->
  exists d,
    products (Mapper_init objs0 n) h objs (prior (Mapper_init objs0 n)) = Ok d
    /\ length d = (n * n)%nat
    /\ forall x, In x d -> 0 < x.
Proof.
  intros Hn Hobjs.
  set (self := Mapper_init objs0 n).
  assert (Hcells : length (latitudes self) = (n * n)%nat)
    by apply (proj1 (length_lattice objs0 n)).
  apply (products_pos self h (n * n) objs).
  - intros r Hr. apply normal_clue_density. apply Hobjs. exact Hr.
  - rewrite length_prior. exact Hcells.
  - intros x Hx. rewrite prior_uniform, Hcells in Hx.
    apply repeat_spec in Hx. subst x.
    apply Rdiv_lt_0_compat; [lra |]. apply lt_0_INR. nia.
Qed.

(** X22: on a lattice of resolution at least 1, a selection of freshly
    built satellites (two coordinates) and rivers (at least two
    coordinates, consecutive ones distinct) with positive confidence
    ranges never fails and never has zero mass: [get_distribution]
    returns [n * n] positive numbers that add up to one. *)
Theorem fresh_normal_clues_give_a_posterior (objs0 : list ref) (n : nat)
  (h : heap R) (objs : list ref) :
  (1 <= n)%nat ->
  (forall r, In r objs -> normal_clue (h r)) ->
  exists post,
    snd (get_distribution (Mapper_init objs0 n) objs h) = Ok post
    /\ length post = (n * n)%nat
    /\ (forall x, In x post -> 0 < x)
    /\ np_sum post = 1.
Proof.
  intros Hn Hobjs.
  destruct (normal_clues_run objs0 n h objs Hn Hobjs) as (d & Hd & Hlen & Hpos).
  assert (Hsum : 0 < np_sum d).
  { apply np_sum_pos; [| exact Hpos]. intros ->. simpl in Hlen. nia. }
  exists (idiv d (np_sum d)).
  split; [rewrite get_distribution_products, Hd; reflexivity |].
  split; [rewrite length_idiv; exact Hlen |].
  split.
  - intros x Hx. apply in_map_iff in Hx. destruct Hx as (y & <- & Hy).
    cbn [ndiv exact]. apply Rdiv_lt_0_compat; [apply Hpos; exact Hy | exact Hsum].
  - rewrite np_sum_idiv. cbn [ndiv exact]. field. lra.
Qed.

(** The satellite and the river of two coordinates, on the lattice of
    resolution 2. *)
Lemma fresh_normal_clues_give_a_posterior_witness :
  exists post,
    snd (get_distribution (Mapper_init [0%nat; 1%nat] 2) [0%nat; 1%nat]
           (fun r => match r with
                     | O => Satellite_init sat_coords 2.4
                     | _ => River_init [(52.5, 13.3); (52.5, 13.4)] 2.73
                     end)) = Ok post
    /\ np_sum post = 1.
Proof.
  destruct (fresh_normal_clues_give_a_posterior [0%nat; 1%nat] 2
              (fun r => match r with
                        | O => Satellite_init sat_coords 2.4
                        | _ => River_init [(52.5, 13.3); (52.5, 13.4)] 2.73
                        end) [0%nat; 1%nat])
    as (post & Hpost & _ & _ & Hsum).
  - lia.
  - intros r [<- | [<- | []]].
    + left. eexists _, _, 2.4. split; [lra | reflexivity].
    + right. exists [(52.5, 13.3); (52.5, 13.4)], 2.73.
      split; [lra |]. split; [simpl; lia |]. split; [| reflexivity].
      intros [| [| k]] a b Ha Hb; simpl in *; try discriminate.
      inversion Ha; inversion Hb; subst. intros E; inversion E; lra.
  - exists post. split; assumption.
Defined.

End MoreExactPosterior.
(** * Instances of the statements about the mapper and the loader *)

Section Examples.

Local Open Scope R_scope.

Lemma two_normal_clues (r : ref) : normal_clue (two_clues r).
Proof.
  unfold two_clues. destruct r as [| r].
  - left. eexists _, _, 2.4. split; [lra | reflexivity].
  - right. exists [(52.5, 13.3); (52.5, 13.4)], 2.73.
    split; [lra |]. split; [simpl; lia |]. split; [| reflexivity].
    intros [| [| k]] a b Ha Hb; simpl in *; try discriminate.
    inversion Ha; inversion Hb; subst. intros E; inversion E; lra.
Qed.

(** The satellite and the river selected together on the lattice of
    resolution 2: the posterior has four entries, none negative, whose
    sum is one; it is the prior times the two densities, cell by cell,
    over the sum of the four products. *)
Lemma posterior_is_normalized_witness :
  exists d post : list R,
    products (Mapper_init [0%nat; 1%nat] 2) two_clues [0%nat; 1%nat]
      (prior (Mapper_init [0%nat; 1%nat] 2)) = Ok d
    /\ snd (get_distribution (Mapper_init [0%nat; 1%nat] 2) [0%nat; 1%nat]
              two_clues) = Ok post
    /\ post = idiv d (np_sum d)
    /\ length post = 4%nat
    /\ (forall x, In x post -> 0 <= x)
    /\ np_sum post = 1.
Proof.
  set (h := two_clues).
  destruct (normal_clues_run [0%nat; 1%nat] 2 h [0%nat; 1%nat])
    as (d & Hd & Hlen & Hpos).
  - lia.
  - intros r _. apply two_normal_clues.
  - destruct (posterior_is_normalized [0%nat; 1%nat] 2 h [0%nat; 1%nat] d Hd)
      as (_ & post & Hrun & Hpost & Hlp & Hnn & Hsum).
    + intros r dens _ Hdens x Hx.
      destruct (normal_clue_density [0%nat; 1%nat] 2 (h r) (two_normal_clues r))
        as (dens' & Hdens' & _ & Hall).
      rewrite Hdens in Hdens'. inversion Hdens'; subst dens'.
      left. apply Hall. exact Hx.
    + apply Rgt_not_eq. apply np_sum_pos; [| exact Hpos].
      intros ->. discriminate Hlen.
    + exists d, post. repeat split; assumption.
Defined.

(** The same selection on the same lattice.  Cell 3 is the north-east
    corner: entry 3 of the density sequence each clue is left with is its
    [prob] there, entry 3 of the posterior is the prior mass of that cell
    times the two densities at that cell over the sum of such products
    over the four cells, and [find_maximum] returns the coordinate of a
    lattice cell that holds the largest posterior mass. *)
Lemma lattice_alignment_witness :
  exists (h' : heap R) (post : list R),
    get_distribution (Mapper_init [0%nat; 1%nat] 2) [0%nat; 1%nat] two_clues
    = (h', Ok post)
    /\ length post = 4%nat
    /\ nth_error (latitudes (Mapper_init [0%nat; 1%nat] 2)) 3 = Some NE_LAT
    /\ nth_error (longitudes (Mapper_init [0%nat; 1%nat] 2)) 3 = Some NE_LON
    /\ (exists v, nth_error (cached (h' 0%nat)) 3 = Some v
                  /\ prob (h' 0%nat) (NE_LAT, NE_LON) = Ok v)
    /\ (exists w, nth_error (cached (h' 1%nat)) 3 = Some w
                  /\ prob (h' 1%nat) (NE_LAT, NE_LON) = Ok w)
    /\ nth 3 post 0
       = cell_mass (nth 3 (prior (Mapper_init [0%nat; 1%nat] 2)) 0)
           [cached (h' 0%nat); cached (h' 1%nat)] 3
         / np_sum (map (fun j =>
                          cell_mass (nth j (prior (Mapper_init [0%nat; 1%nat] 2)) 0)
                            [cached (h' 0%nat); cached (h' 1%nat)] j)
                     (seq 0 (2 * 2)))
    /\ exists j lat lon pj,
         find_maximum (Mapper_init [0%nat; 1%nat] 2) post = Ok (lat, lon)
         /\ nth_error (latitudes (Mapper_init [0%nat; 1%nat] 2)) j = Some lat
         /\ nth_error (longitudes (Mapper_init [0%nat; 1%nat] 2)) j = Some lon
         /\ nth_error post j = Some pj
         /\ forall x, In x post -> x <= pj.
Proof.
  set (h := two_clues). set (self := Mapper_init [0%nat; 1%nat] 2).
  destruct (normal_clues_run [0%nat; 1%nat] 2 h [0%nat; 1%nat])
    as (d & Hd & Hlen & _); [lia | intros r _; apply two_normal_clues |].
  fold self in Hd.
  pose proof (get_distribution_products self [0%nat; 1%nat] h) as Hrun.
  rewrite Hd in Hrun.
  destruct (get_distribution self [0%nat; 1%nat] h) as [h' res] eqn:Erun.
  cbn [snd] in Hrun. subst res.
  exists h', (idiv d (np_sum d)).
  destruct (lattice_alignment [0%nat; 1%nat] 2 h h' [0%nat; 1%nat]
              (idiv d (np_sum d)))
    as (Hdens & Hlp & Hmass & Hmax).
  - intros r _. unfold cache_fits, h.
    rewrite (normal_clue_fresh _ (two_normal_clues r)). exact I.
  - exact Erun.
  - split; [reflexivity |]. split; [exact Hlp |].
    split; [reflexivity |]. split; [reflexivity |].
    split; [| split; [| split]].
    + apply (proj2 (Hdens 0%nat (or_introl eq_refl)) 3%nat); reflexivity.
    + apply (proj2 (Hdens 1%nat (or_intror (or_introl eq_refl))) 3%nat);
        reflexivity.
    + exact (Hmass 3%nat).
    + assert (Hne : idiv d (np_sum d) <> []).
      { intros E. apply (f_equal (@length R)) in E. rewrite Hlp in E.
        discriminate E. }
      destruct (Hmax Hne) as (j & lat & lon & pj & Hf & Hlat & Hlon & Hj & Hle & _).
      exists j, lat, lon, pj. repeat split; assumption.
Defined.

(** With no clue selected the loop body never runs, so [get_distribution]
    returns and leaves the store alone. *)
Lemma get_distribution_nil_returns (self : Mapper R) (h : heap R) :
  exists post, get_distribution self [] h = (h, Ok post).
Proof.
  unfold get_distribution, bind. cbn [for_objs]. unfold ret.
  eexists. reflexivity.
Qed.

(** A gate whose cache holds two densities, selected on the lattice of
    resolution 2, which has four cells. *)
Lemma cache_of_other_size_raises_witness :
  value (snd (get_distribution (Mapper_init [0%nat] 2) [0%nat]
                (fun _ => set_pdf (BGate_init bg_coords 4.7 3.877) [1; 2])))
  = None.
Proof.
  apply (cache_of_other_size_raises (Mapper_init [0%nat] 2)
           (fun _ => set_pdf (BGate_init bg_coords 4.7 3.877) [1; 2])
           0%nat [1; 2] [0%nat]).
  - reflexivity.
  - left; reflexivity.
  - rewrite (proj1 (length_lattice [0%nat] 2)). cbn [length]. lia.
  - cbn [length]. lia.
Defined.

(** The satellite of [main.py] on the lattice of resolution 2. *)
Lemma generate_map_lines_needs_256_witness :
  value (snd (generate_map (fun _ _ => Ok []) example_pyplot
                (Mapper_init [0%nat] 2) None "lines" true 200 10
                (fun _ => Satellite_init sat_coords 2.4)))
  = None.
Proof.
  apply (generate_map_lines_needs_256 (fun _ _ => Ok []) example_pyplot
           [0%nat] 2 None true 200 10 (fun _ => Satellite_init sat_coords 2.4)).
  lia.
Defined.

(** The satellite and the river at resolution 256, asked for their common
    map with the maximum marked: the one path of the first level is
    plotted in the colour of that level. *)
Lemma generate_map_draws_the_lattice_witness :
  exists h' lat lon X Y P color,
    generate_map (fun _ _ => Ok []) example_pyplot
      (Mapper_init [0%nat; 1%nat] 256) None "lines" true 200 10 two_clues
    = (h', Ok [plotter ((SW_LAT + NE_LAT) / 2) ((SW_LON + NE_LON) / 2);
               scatter [lat] [lon];
               contour_lines X Y P;
               plot [1; 3] [2; 4] color;
               polygon [SW_LAT; SW_LAT; NE_LAT; NE_LAT]
                 [SW_LON; NE_LON; NE_LON; SW_LON];
               draw "../maps/final_map.html"]).
Proof.
  set (self := Mapper_init [0%nat; 1%nat] 256).
  destruct (normal_clues_run [0%nat; 1%nat] 256 two_clues [0%nat; 1%nat])
    as (d & Hd & _); [lia | intros r _; apply two_normal_clues |].
  fold self in Hd.
  pose proof (get_distribution_products self [0%nat; 1%nat] two_clues) as Hrun.
  rewrite Hd in Hrun.
  destruct (get_distribution self [0%nat; 1%nat] two_clues) as [h' res] eqn:Erun.
  cbn [snd] in Hrun. subst res.
  destruct (generate_map_draws_the_lattice (fun _ _ => Ok []) example_pyplot
              [0%nat; 1%nat] None true 200 10 two_clues h'
              (idiv d (np_sum d)) [1; 2] [[[(1, 2); (3, 4)]]; []]
              (np_maximum 1 2) Erun eq_refl eq_refl)
    as (marker & color_map & Hmap & (lat & lon & _ & ->) & _).
  - intros r g b a _. eexists. reflexivity.
  - cbn [length idiv map example_pyplot sm_to_rgba]. lia.
  - intros level path [<- | [<- | []]] Hpath.
    + destruct Hpath as [<- | []]. discriminate.
    + destruct Hpath.
  - exists h', lat, lon. eexists. eexists. eexists. eexists. exact Hmap.
Defined.

(** A mapper of no clue at resolution 2, with a draw of the cells 3 and
    0. *)
Lemma generate_map_heatmap_draws_cells_witness :
  exists calls,
    generate_map (fun _ _ => Ok [3%nat; 0%nat]) example_pyplot
      (Mapper_init [] 2) None
      "heatmap" false 2 10 (fun _ => Satellite_init sat_coords 2.4)
    = (fun _ => Satellite_init sat_coords 2.4, Ok calls).
Proof.
  destruct (get_distribution_nil_returns (Mapper_init [] 2)
              (fun _ => Satellite_init sat_coords 2.4)) as [post Hpost].
  destruct (generate_map_heatmap_draws_cells (fun _ _ => Ok [3%nat; 0%nat])
              example_pyplot [] 2
              None 2 10 (fun _ => Satellite_init sat_coords 2.4)
              (fun _ => Satellite_init sat_coords 2.4)
              post [3%nat; 0%nat] Hpost eq_refl)
    as (lats & lons & Hrun & _).
  - intros i [<- | [<- | []]]; cbn; lia.
  - eexists. exact Hrun.
Defined.

(** A file of two lines, with a conversion that returns the number of
    characters of a field. *)
Lemma read_river_of_river_file_witness :
  read_river (fun s => Ok (INR (String.length s)))
    (river_file [("52.5", "13.41"); ("52.51", "13.4")]%string)
  = mapM (fun f => (x <- Ok (INR (String.length (fst f))) ;;
                    y <- Ok (INR (String.length (snd f))) ;;
                    Ok (x, y))%py)
      [("52.5", "13.41"); ("52.51", "13.4")]%string.
Proof.
  apply (read_river_of_river_file (fun s => Ok (INR (String.length s)))
           [("52.5", "13.41"); ("52.51", "13.4")]%string).
  reflexivity.
Defined.

End Examples.
